(** * bugfruit: an embedded key-value store on an append-only log

    A shallow embedding of the Go package [bugfruit] (meta.go, datum.go,
    map.go, config.go, errors.go, storage.go) and the properties of its
    record codec, recovery scan, write path, compaction and snapshot.

    Conventions of the embedding.
    - Go's [uint32] and [uint64] are [Z] with the wrap-around written out
      ([u32], [u64]); [int] and [int64] (lengths, file offsets) are [Z]
      without wrap-around, their 63 bits being out of reach of any file.
    - A byte is [Byte.byte], a [[]byte] is [list byte], a Go [string] is a
      [string] whose bytes are [list_byte_of_string].
    - [*datum] values stored in the index are addresses into a heap of
      datums, so that a write through one alias is seen through the others.
    - The operating system is a map from paths to file contents, a schedule
      of injected I/O faults and a trace of the writes, truncations and
      syncs it has carried out.
    - A Go function returning [(T, error)] returns an [outcome]: [Ok],
      [Err], or one of the ways of not returning at all: [Panic] (a run-time
      panic), [Blocked] (waiting forever on a mutex) and [OutOfFuel] (the
      bound of a modelled loop was too small). *)

From Stdlib Require Import ZArith Lia List.
From Stdlib Require Import Strings.String Strings.Ascii Strings.Byte.
From Stdlib Require Import Numbers.DecimalString.
From coqutil Require Import Byte Word.LittleEndianList.
From stdpp Require Import base option list strings gmap.

Local Open Scope Z_scope.

(** ** Errors (errors.go, and the errors of [io], [os] and [fmt]) *)

Inductive error : Type :=
  | io_EOF
  | ErrDBClosed
  | ErrInvalidMetaSlice
  | ErrInvalidKeyValSlice
  | ErrNoMetadata
  | PathError (op path errno : string)
  | Errorf (msg : string).

Definition Error (e : error) : string :=
  match e with
  | io_EOF => "EOF"
  | ErrDBClosed => "database is closed"
  | ErrInvalidMetaSlice => "invalid meta slice"
  | ErrInvalidKeyValSlice => "invalid key/val slice"
  | ErrNoMetadata => "no metadata"
  | PathError op path errno => op +:+ " " +:+ path +:+ ": " +:+ errno
  | Errorf msg => msg
  end.

(** [%d] of [fmt]. *)
Definition fmt_d (z : Z) : string := NilZero.string_of_int (Z.to_int z).

(** [fmt.Errorf(prefix + "%w", e)]. *)
Definition wrapf (prefix : string) (e : error) : error :=
  Errorf (prefix +:+ Error e).

Inductive outcome (A : Type) : Type :=
  | Ok (a : A)
  | Err (e : error)
  | Panic
  | Blocked
  | OutOfFuel.
Arguments Ok {A} a.
Arguments Err {A} e.
Arguments Panic {A}.
Arguments Blocked {A}.
Arguments OutOfFuel {A}.

Definition obind {A B} (o : outcome A) (k : A -> outcome B) : outcome B :=
  match o with
  | Ok a => k a
  | Err e => Err e
  | Panic => Panic
  | Blocked => Blocked
  | OutOfFuel => OutOfFuel
  end.

Notation "x <-? o ; k" := (obind o (fun x => k))
  (at level 100, o at next level, right associativity).

(** ** Machine integers and slices *)

Definition u32 (z : Z) : Z := z mod 4294967296.
Definition u64 (z : Z) : Z := z mod 18446744073709551616.

(** [len(b)], an [int]. *)
Definition len {A} (b : list A) : Z := Z.of_nat (length b).

(** [make([]byte, n)]. *)
Definition make (n : Z) : list byte := repeat x00 (Z.to_nat n).

(** The slice expression [b[lo:hi]] (on a slice whose capacity is its
    length): a run-time panic unless [0 <= lo <= hi <= len b]. *)
Definition slice (b : list byte) (lo hi : Z) : outcome (list byte) :=
  if decide (0 <= lo /\ lo <= hi /\ hi <= len b)
  then Ok (take (Z.to_nat (hi - lo)) (drop (Z.to_nat lo) b))
  else Panic.

(** [copy(b[lo:hi], src)], returning the array behind [b] afterwards:
    [copy] moves [min (hi - lo) (len src)] bytes. *)
Definition copy_slice (b : list byte) (lo hi : Z) (src : list byte)
  : outcome (list byte) :=
  if decide (0 <= lo /\ lo <= hi /\ hi <= len b)
  then let n := Nat.min (Z.to_nat (hi - lo)) (length src) in
       Ok (take (Z.to_nat lo) b ++ take n src ++ drop (Z.to_nat lo + n) b)
  else Panic.

(** [binary.LittleEndian.PutUint32] and [binary.LittleEndian.Uint32]. *)
Definition PutUint32 (v : Z) : list byte := le_split 4 v.
Definition Uint32 (b : list byte) : Z := le_combine (take 4 b).

(** ** meta.go *)

Definition metaSize : Z := 9.

Record meta : Type := mkMeta {
  keySize : Z;      (* uint32 *)
  valSize : Z;      (* uint32 *)
  deleted : byte
}.

Definition meta_zero : meta := mkMeta 0 0 x00.

Definition meta_FromBytes (m : meta) (b : list byte) : outcome meta :=
  if decide (len b <> metaSize) then Err ErrInvalidMetaSlice
  else
    Ok {| keySize := Uint32 (take 4 b);
          valSize := Uint32 (take 4 (drop 4 b));
          deleted := nth 8 b x00 |}.

Definition meta_Bytes (m : meta) : list byte :=
  PutUint32 (keySize m) ++ PutUint32 (valSize m) ++ [deleted m].

(** ** datum.go *)

Record datum : Type := mkDatum {
  d_meta : meta;
  d_key : string;
  d_value : list byte;
  d_idx : Z         (* uint32 *)
}.

Definition newDatum : datum := mkDatum meta_zero "" [] 0.

#[global] Instance byte_eq_dec : EqDecision byte := Byte.byte_eq_dec.

Definition with_meta (f : meta -> meta) (d : datum) : datum :=
  mkDatum (f (d_meta d)) (d_key d) (d_value d) (d_idx d).

Definition with_idx (i : Z) (d : datum) : datum :=
  mkDatum (d_meta d) (d_key d) (d_value d) i.

(** [datum.Set]; it always returns a nil error. *)
Definition datum_Set (d : datum) (key : string) (value : list byte) : datum :=
  let d1 :=
    if decide (value = d_value d) then d
    else mkDatum (mkMeta (keySize (d_meta d)) (u32 (len value)) (deleted (d_meta d)))
                 (d_key d) value (d_idx d) in
  if decide (key = d_key d1) then d1
  else mkDatum (mkMeta (u32 (len (list_byte_of_string key))) (valSize (d_meta d1))
                       (deleted (d_meta d1)))
               key (d_value d1) (d_idx d1).

Definition datum_MarkDeleted (d : datum) : datum :=
  with_meta (fun m => mkMeta (keySize m) (valSize m) x01) d.

Definition datum_Deleted (d : datum) : byte := deleted (d_meta d).

Definition datum_Size (d : datum) : Z :=
  u32 (u32 (keySize (d_meta d) + valSize (d_meta d)) + metaSize).

Definition datum_Bytes (d : datum) : outcome (list byte) :=
  let b := make (datum_Size d) in
  b <-? copy_slice b 0 metaSize (meta_Bytes (d_meta d));
  b <-? copy_slice b metaSize (u32 (metaSize + keySize (d_meta d)))
          (list_byte_of_string (d_key d));
  b <-? copy_slice b (u32 (metaSize + keySize (d_meta d))) (len b) (d_value d);
  Ok b.

(** [datum.KeyValFromBytes]. Every datum the package builds has a [meta]
    ([newDatum], [readDatum]), so the nil test that returns
    [ErrNoMetadata] has no counterpart here. *)
Definition datum_KeyValFromBytes (d : datum) (b : list byte) : outcome datum :=
  let m := d_meta d in
  if decide (u32 (len b) <> u32 (keySize m + valSize m))
  then Err ErrInvalidKeyValSlice
  else
    k <-? slice b 0 (keySize m);
    v <-? slice b (keySize m) (u32 (keySize m + valSize m));
    Ok (mkDatum m (string_of_list_byte k) v (d_idx d)).


(** ** The operating system

    A file is the list of its bytes, found under its path. Every system
    call first consults the fault schedule: [None] (or an exhausted
    schedule) lets the call through, [Some f] makes it fail with [errno f],
    a failing write having moved [transferred f] bytes before. *)

Record fault : Type := mkFault { transferred : nat; errno : string }.

Inductive event : Type :=
  | EvWrite (path : string) (off : Z) (bytes : list byte)
  | EvTruncate (path : string) (size : Z)
  | EvSync (path : string).

Record World : Type := mkWorld {
  fs : gmap string (list byte);
  heap : list datum;
  faults : list (option fault);
  trace : list event
}.

(** An open [*os.File]: the path it was opened on, the file offset and
    whether [Close] was called on it. *)
Record File : Type := mkFile { f_path : string; f_pos : Z; f_closed : bool }.

(** ** config.go *)

Record Config : Type := mkConfig {
  VacuumBatch : Z;  (* uint64 *)
  FsyncBatch : Z    (* uint64 *)
}.

(** ** storage.go: the Storage struct

    [data] is the map of [muMap]; its [RWMutex] is never held by a goroutine
    that acquires it again, so it has no counterpart. [muFile] is [true]
    while the file mutex is held. The channel [closed] is never made (it is
    nil throughout the package) and is left out. *)

Record Storage : Type := mkStorage {
  name : string;
  file : File;
  writeCountSync : Z;     (* uint64 *)
  writeCountVacuum : Z;   (* uint64 *)
  muFile : bool;
  data : gmap string nat;
  idx : Z;                (* uint32 *)
  config : Config
}.

Definition set_fs (f : gmap string (list byte)) (w : World) : World :=
  mkWorld f (heap w) (faults w) (trace w).
Definition set_heap (h : list datum) (w : World) : World :=
  mkWorld (fs w) h (faults w) (trace w).
Definition set_faults (l : list (option fault)) (w : World) : World :=
  mkWorld (fs w) (heap w) l (trace w).
Definition log_event (e : event) (w : World) : World :=
  mkWorld (fs w) (heap w) (faults w) (trace w ++ [e]).

Definition set_file (f : File) (s : Storage) : Storage :=
  mkStorage (name s) f (writeCountSync s) (writeCountVacuum s) (muFile s)
            (data s) (idx s) (config s).
Definition set_writeCountSync (n : Z) (s : Storage) : Storage :=
  mkStorage (name s) (file s) n (writeCountVacuum s) (muFile s)
            (data s) (idx s) (config s).
Definition set_writeCountVacuum (n : Z) (s : Storage) : Storage :=
  mkStorage (name s) (file s) (writeCountSync s) n (muFile s)
            (data s) (idx s) (config s).
Definition set_muFile (b : bool) (s : Storage) : Storage :=
  mkStorage (name s) (file s) (writeCountSync s) (writeCountVacuum s) b
            (data s) (idx s) (config s).
Definition set_data (m : gmap string nat) (s : Storage) : Storage :=
  mkStorage (name s) (file s) (writeCountSync s) (writeCountVacuum s) (muFile s)
            m (idx s) (config s).
Definition set_idx (i : Z) (s : Storage) : Storage :=
  mkStorage (name s) (file s) (writeCountSync s) (writeCountVacuum s) (muFile s)
            (data s) i (config s).
Definition set_pos (p : Z) (s : Storage) : Storage :=
  set_file (mkFile (f_path (file s)) p (f_closed (file s))) s.

(** ** The monad of Storage methods *)

Definition M (A : Type) : Type := Storage -> World -> outcome A * Storage * World.

Definition ret {A} (a : A) : M A := fun s w => (Ok a, s, w).

Definition bind {A B} (m : M A) (k : A -> M B) : M B :=
  fun s w =>
    match m s w with
    | (Ok a, s', w') => k a s' w'
    | (Err e, s', w') => (Err e, s', w')
    | (Panic, s', w') => (Panic, s', w')
    | (Blocked, s', w') => (Blocked, s', w')
    | (OutOfFuel, s', w') => (OutOfFuel, s', w')
    end.

Notation "x <- m ;; k" := (bind m (fun x => k))
  (at level 100, m at next level, right associativity).
Notation "m ;;; k" := (bind m (fun _ => k))
  (at level 100, right associativity).

Definition fail {A} (e : error) : M A := fun s w => (Err e, s, w).
Definition lift {A} (o : outcome A) : M A := fun s w => (o, s, w).
Definition getS : M Storage := fun s w => (Ok s, s, w).
Definition getW : M World := fun s w => (Ok w, s, w).
Definition modS (f : Storage -> Storage) : M unit := fun s w => (Ok tt, f s, w).
Definition modW (f : World -> World) : M unit := fun s w => (Ok tt, s, f w).

(** [if err := m; err != nil { return fmt.Errorf(prefix + "%w", err) }]. *)
Definition wrap {A} (prefix : string) (m : M A) : M A :=
  fun s w =>
    match m s w with
    | (Err e, s', w') => (Err (wrapf prefix e), s', w')
    | r => r
    end.

(** [s.muFile.Lock(); defer s.muFile.Unlock(); body]: a [sync.Mutex] is not
    reentrant, so locking it while it is held never returns; the deferred
    unlock runs on every return of [body], with or without an error. *)
Definition locked {A} (body : M A) : M A :=
  fun s w =>
    if muFile s then (Blocked, s, w)
    else
      match body (set_muFile true s) w with
      | (Ok a, s', w') => (Ok a, set_muFile false s', w')
      | (Err e, s', w') => (Err e, set_muFile false s', w')
      | r => r
      end.

(** ** System calls on [s.file] *)

Definition pop_fault (w : World) : option fault * World :=
  match faults w with
  | [] => (None, w)
  | f :: l => (f, set_faults l w)
  end.

Definition content (w : World) (path : string) : list byte :=
  default [] (fs w !! path).

Definition closed_error (op : string) (f : File) : error :=
  PathError op (f_path f) "file already closed".

(** [pwrite]: bytes past the end of the file extend it, a gap being
    filled with zeros. *)
Definition write_at (c : list byte) (pos : nat) (p : list byte) : list byte :=
  take pos c ++ repeat x00 (pos - length c) ++ p ++ drop (pos + length p) c.

(** [s.file.Seek(offset, whence)], whence 0, 1, 2 = start, current, end. *)
Definition file_Seek (offset whence : Z) : M Z :=
  fun s w =>
    let f := file s in
    if f_closed f then (Err (closed_error "seek" f), s, w)
    else
      match pop_fault w with
      | (Some ft, w') => (Err (PathError "seek" (f_path f) (errno ft)), s, w')
      | (None, w') =>
          let base := if decide (whence = 0) then 0
                      else if decide (whence = 1) then f_pos f
                      else len (content w' (f_path f)) in
          let p := base + offset in
          if decide (p < 0)
          then (Err (PathError "seek" (f_path f) "invalid argument"), s, w')
          else (Ok p, set_pos p s, w')
      end.

(** [s.file.Read(buf)] with [len buf = n]: the bytes read and the error.
    An empty [buf] reads nothing and reports nothing; at the end of the file
    the result is [(0, io.EOF)]; a failed read moves no bytes. *)
Definition file_Read (n : Z) : M (list byte * option error) :=
  fun s w =>
    let f := file s in
    if f_closed f then (Ok ([], Some (closed_error "read" f)), s, w)
    else if decide (n = 0) then (Ok ([], None), s, w)
    else
      match pop_fault w with
      | (Some ft, w') =>
          (Ok ([], Some (PathError "read" (f_path f) (errno ft))), s, w')
      | (None, w') =>
          let got := take (Z.to_nat n)
                          (drop (Z.to_nat (f_pos f)) (content w' (f_path f))) in
          match got with
          | [] => (Ok ([], Some io_EOF), s, w')
          | _ => (Ok (got, None), set_pos (f_pos f + len got) s, w')
          end
      end.

Definition do_write (path : string) (pos : Z) (p : list byte) (w : World) : World :=
  log_event (EvWrite path pos p)
    (set_fs (<[path := write_at (content w path) (Z.to_nat pos) p]> (fs w)) w).

(** [s.file.Write(p)]: the number of bytes written, or the error. *)
Definition file_Write (p : list byte) : M Z :=
  fun s w =>
    let f := file s in
    if f_closed f then (Err (closed_error "write" f), s, w)
    else
      match pop_fault w with
      | (Some ft, w') =>
          let q := take (transferred ft) p in
          (Err (PathError "write" (f_path f) (errno ft)),
           set_pos (f_pos f + len q) s, do_write (f_path f) (f_pos f) q w')
      | (None, w') =>
          (Ok (len p), set_pos (f_pos f + len p) s,
           do_write (f_path f) (f_pos f) p w')
      end.

Definition file_Sync : M unit :=
  fun s w =>
    let f := file s in
    if f_closed f then (Err (closed_error "sync" f), s, w)
    else
      match pop_fault w with
      | (Some ft, w') => (Err (PathError "sync" (f_path f) (errno ft)), s, w')
      | (None, w') => (Ok tt, s, log_event (EvSync (f_path f)) w')
      end.

(** [s.file.Close()]: the descriptor is released even when the call
    reports an error. *)
Definition file_Close : M unit :=
  fun s w =>
    let f := file s in
    if f_closed f then (Err (closed_error "close" f), s, w)
    else
      let s' := set_file (mkFile (f_path f) (f_pos f) true) s in
      match pop_fault w with
      | (Some ft, w') => (Err (PathError "close" (f_path f) (errno ft)), s', w')
      | (None, w') => (Ok tt, s', w')
      end.

Definition file_Truncate (n : Z) : M unit :=
  fun s w =>
    let f := file s in
    if f_closed f then (Err (closed_error "truncate" f), s, w)
    else
      match pop_fault w with
      | (Some ft, w') => (Err (PathError "truncate" (f_path f) (errno ft)), s, w')
      | (None, w') =>
          let c := content w' (f_path f) in
          let c' := take (Z.to_nat n) c ++ repeat x00 (Z.to_nat n - length c) in
          (Ok tt, s,
           log_event (EvTruncate (f_path f) n)
             (set_fs (<[f_path f := c']> (fs w')) w'))
      end.

(** [os.OpenFile(filename, os.O_RDWR|os.O_CREATE, mode)]. *)
Definition os_OpenFile (filename : string) (w : World) : outcome File * World :=
  match pop_fault w with
  | (Some ft, w') => (Err (PathError "open" filename (errno ft)), w')
  | (None, w') =>
      let w'' := match fs w' !! filename with
                 | Some _ => w'
                 | None => set_fs (<[filename := []]> (fs w')) w'
                 end in
      (Ok (mkFile filename 0 false), w'')
  end.

Definition ENOENT : string := "no such file or directory".

(** [os.Remove(path)]. *)
Definition os_Remove (path : string) (w : World) : option error * World :=
  match pop_fault w with
  | (Some ft, w') => (Some (PathError "remove" path (errno ft)), w')
  | (None, w') =>
      match fs w' !! path with
      | Some _ => (None, set_fs (delete path (fs w')) w')
      | None => (Some (PathError "remove" path ENOENT), w')
      end
  end.

(** [errors.Is(err, os.ErrNotExist)]. *)
Definition is_ErrNotExist (e : error) : bool :=
  match e with
  | PathError _ _ en => bool_decide (en = ENOENT)
  | _ => false
  end.

(** ** The heap of datums and map.go *)

Definition deref (w : World) (p : nat) : datum := default newDatum (heap w !! p).

Definition alloc (d : datum) : M nat :=
  fun s w => (Ok (length (heap w)), s, set_heap (heap w ++ [d]) w).

(** A write through the pointer [p]. *)
Definition update (p : nat) (f : datum -> datum) : M unit :=
  modW (fun w => set_heap (alter f p (heap w)) w).

Definition Store (key : string) (p : nat) : M unit :=
  modS (fun s => set_data (<[key := p]> (data s)) s).

Definition Load (key : string) : M (option nat) :=
  fun s w => (Ok (data s !! key), s, w).

Definition LoadAndDelete (key : string) : M (option nat) :=
  fun s w =>
    match data s !! key with
    | Some p => (Ok (Some p), set_data (delete key (data s)) s, w)
    | None => (Ok None, s, w)
    end.

(** ** storage.go: reading *)

Definition is_EOF (e : error) : bool :=
  match e with io_EOF => true | _ => false end.

Definition readDatum : M (option datum) :=
  r <- file_Read metaSize ;;
  let n := len r.1 in
  let buf := r.1 ++ make (metaSize - n) in
  match r.2 with
  | Some e =>
      if negb (is_EOF e) || (is_EOF e && negb (bool_decide (n = 0)))
      then fail (Errorf ("reading database file: reading metadata: read "
                         +:+ fmt_d n +:+ " bytes: " +:+ Error e))
      else fail io_EOF
  | None =>
      m <- wrap "reading database file: converting metadata: "
             (lift (meta_FromBytes meta_zero buf)) ;;
      let totalSize := u32 (keySize m + valSize m) in
      if decide (deleted m = x01) then
        _ <- wrap "reading database file: skipping deleted: "
               (file_Seek totalSize 1) ;;
        modS (fun s => set_idx (u32 (idx s + u32 (totalSize + metaSize))) s) ;;;
        ret None
      else
        r <- file_Read totalSize ;;
        let n := len r.1 in
        let buf := r.1 ++ make (totalSize - n) in
        if match r.2 with Some e => negb (is_EOF e) | None => false end
        then fail (wrapf "reading database file: reading key/val data: "
                         (default io_EOF r.2))
        else if decide (u32 n <> totalSize)
        then fail (Errorf ("reading database file: reading key/val data: read "
                           +:+ fmt_d n +:+ " bytes, need " +:+ fmt_d totalSize))
        else
          s <- getS ;;
          d <- wrap "reading database file: converting key/val data: "
                 (lift (datum_KeyValFromBytes (mkDatum m "" [] (idx s)) buf)) ;;
          modS (fun s => set_idx (u32 (idx s + datum_Size d)) s) ;;;
          ret (Some d)
  end.

(** ** storage.go: compaction *)

(** Deferred calls run when [body] returns, with or without an error. *)
Definition defer_ {A} (body : M A) (cleanup : Storage -> World -> Storage * World)
  : M A :=
  fun s w =>
    match body s w with
    | (Ok a, s', w') => (Ok a, (cleanup s' w').1, (cleanup s' w').2)
    | (Err e, s', w') => (Err e, (cleanup s' w').1, (cleanup s' w').2)
    | r => r
    end.

(** A system call on the temporary file of [vacuum], which is private to
    the call: only its failure is the operating system's to decide. *)
Definition temp_call (op : string) : M unit :=
  fun s w =>
    match pop_fault w with
    | (Some ft, w') => (Err (PathError op "bugfruit-cleanup" (errno ft)), s, w')
    | (None, w') => (Ok tt, s, w')
    end.

Definition seek_start : M unit :=
  fun s w =>
    match file_Seek 0 0 s w with
    | (Ok r, s', w') =>
        if decide (r <> 0)
        then (Err (Errorf ("tried to seek to index 0, got to " +:+ fmt_d r
                           +:+ ": %!w(<nil>)")), s', w')
        else (Ok tt, s', w')
    | (Err e, s', w') =>
        (Err (Errorf ("tried to seek to index 0, got to " +:+ fmt_d 0
                      +:+ ": " +:+ Error e)), s', w')
    | (Panic, s', w') => (Panic, s', w')
    | (Blocked, s', w') => (Blocked, s', w')
    | (OutOfFuel, s', w') => (OutOfFuel, s', w')
    end.

(** The loop of [vacuum] that reads each datum and writes the live ones to
    the temporary file: the contents of that file and [cleanedSize]. *)
Fixpoint vacuum_scan (fuel : nat) (cleaned : list byte) (cleanedSize : Z)
  : M (list byte * Z) :=
  match fuel with
  | O => lift OutOfFuel
  | S fuel =>
      fun s w =>
        match readDatum s w with
        | (Err e, s', w') =>
            if is_EOF e then (Ok (cleaned, cleanedSize), s', w')
            else (Err (wrapf "reading datum: " e), s', w')
        | (Ok None, s', w') => vacuum_scan fuel cleaned cleanedSize s' w'
        | (Ok (Some d), s', w') =>
            (toWrite <- lift (datum_Bytes d) ;;
             let n := len toWrite in
             fun s w =>
               match pop_fault w with
               | (Some ft, w') =>
                   (Err (Errorf ("writing " +:+ fmt_d n
                                 +:+ " bytes to cleanup file, wrote "
                                 +:+ fmt_d (Z.of_nat (Nat.min (transferred ft) (length toWrite)))
                                 +:+ ": "
                                 +:+ Error (PathError "write" "bugfruit-cleanup" (errno ft)))),
                    s, w')
               | (None, w') =>
                   vacuum_scan fuel (cleaned ++ toWrite) (cleanedSize + n) s w'
               end) s' w'
        | (Panic, s', w') => (Panic, s', w')
        | (Blocked, s', w') => (Blocked, s', w')
        | (OutOfFuel, s', w') => (OutOfFuel, s', w')
        end
  end.

(** The loop of [vacuum] that copies the temporary file back, 5 KiB at a
    time; [rest] is what is left to read of the temporary file. *)
Definition bufSize : nat := Z.to_nat (1024 * 5).

Fixpoint vacuum_copy (fuel : nat) (rest : list byte) : M unit :=
  match fuel with
  | O => lift OutOfFuel
  | S fuel =>
      _ <- wrap "reading from cleaned db: " (temp_call "read") ;;
      match take bufSize rest with
      | [] => ret tt
      | chunk => _ <- file_Write chunk ;; vacuum_copy fuel (drop bufSize rest)
      end
  end.

Definition vacuum : M unit :=
  locked (
    seek_start ;;;
    wrap "creating temp db file during vacuum: " (temp_call "open") ;;;
    defer_ (
      s <- getS ;;
      w <- getW ;;
      r <- vacuum_scan (S (length (content w (f_path (file s))))) [] 0 ;;
      let cleaned := r.1 in
      let cleanedSize := r.2 in
      (fun s w =>
         match temp_call "seek" s w with
         | (Err e, s', w') =>
             (Err (Errorf ("seeking temporary cleanup file to 0, sought to "
                           +:+ fmt_d 0 +:+ ": " +:+ Error e)), s', w')
         | r => r
         end) ;;;
      seek_start ;;;
      vacuum_copy (S (length cleaned)) cleaned ;;;
      wrap "truncating cleaned db file: " (file_Truncate cleanedSize) ;;;
      modS (set_idx (u32 cleanedSize)))
    (fun s w => (s, (pop_fault w).2))).

(** ** storage.go: writing *)

Definition incAndSync : M unit :=
  s <- getS ;;
  let wcs := u64 (writeCountSync s + 1) in
  let wcv := u64 (writeCountVacuum s + 1) in
  modS (set_writeCountSync wcs) ;;;
  modS (set_writeCountVacuum wcv) ;;;
  (if decide (VacuumBatch (config s) > 0 /\ wcv >= VacuumBatch (config s))
   then wrap ("vacuuming " +:+ name s +:+ ": ") vacuum ;;;
        modS (set_writeCountVacuum 0)
   else ret tt) ;;;
  (if decide (FsyncBatch (config s) > 0 /\ wcs >= FsyncBatch (config s))
   then wrap ("syncing " +:+ name s +:+ ": ") file_Sync ;;;
        modS (set_writeCountSync 0)
   else ret tt).

Definition writeDatumToFile (d : nat) : M unit :=
  locked (
    offset <- wrap "seeking to end of file: " (file_Seek 0 2) ;;
    update d (with_idx (u32 offset)) ;;;
    w <- getW ;;
    b <- lift (datum_Bytes (deref w d)) ;;
    n <- wrap "writing to db file: " (file_Write b) ;;
    let sz := datum_Size (deref w d) in
    if decide (n <> sz)
    then fail (Errorf ("number of bytes written '" +:+ fmt_d n
                       +:+ "' does not equal size '" +:+ fmt_d sz +:+ "'"))
    else incAndSync).

Definition writeDeletedByte (d : nat) : M unit :=
  locked (
    w <- getW ;;
    let delIdx := d_idx (deref w d) + metaSize - 1 in
    ret0 <- wrap ("seeking to " +:+ fmt_d (d_idx (deref w d)) +:+ ": ")
              (file_Seek delIdx 0) ;;
    if decide (ret0 <> delIdx)
    then fail (Errorf ("seeking to " +:+ fmt_d (d_idx (deref w d))
                       +:+ ": sought to " +:+ fmt_d ret0 +:+ " instead"))
    else
      n <- wrap "writing to db file: " (file_Write [datum_Deleted (deref w d)]) ;;
      if decide (n <> 1)
      then fail (Errorf ("number of bytes written '" +:+ fmt_d n
                         +:+ "' does not equal size '1'"))
      else incAndSync).

Definition reclaimSpace (d : nat) : M unit :=
  update d datum_MarkDeleted ;;;
  wrap "updating db file: " (writeDeletedByte d).

Definition appendDatum (key : string) (value : list byte) : M unit :=
  d <- alloc (datum_Set newDatum key value) ;;
  Store key d ;;;
  writeDatumToFile d.

(** ** storage.go: the public operations *)

Definition Close : M unit :=
  locked (
    wrap "closing Storage: " file_Sync ;;;
    wrap "closing Storage: " file_Close).

(** The loop of [NewStorage] that reads the file into the index. *)
Fixpoint load_loop (fuel : nat) : M unit :=
  match fuel with
  | O => lift OutOfFuel
  | S fuel =>
      fun s w =>
        match readDatum s w with
        | (Err e, s', w') =>
            if is_EOF e then (Ok tt, s', w')
            else
              match Close s' w' with
              | (Err e2, s'', w'') =>
                  (Err (Errorf ("reading datum: while handling error '"
                                +:+ Error e +:+ "': encountered " +:+ Error e2)),
                   s'', w'')
              | (Ok _, s'', w'') => (Err (wrapf "reading datum: " e), s'', w'')
              | (Panic, s'', w'') => (Panic, s'', w'')
              | (Blocked, s'', w'') => (Blocked, s'', w'')
              | (OutOfFuel, s'', w'') => (OutOfFuel, s'', w'')
              end
        | (Ok None, s', w') => load_loop fuel s' w'
        | (Ok (Some d), s', w') =>
            (p <- alloc d ;; Store (d_key d) p ;;; load_loop fuel) s' w'
        | (Panic, s', w') => (Panic, s', w')
        | (Blocked, s', w') => (Blocked, s', w')
        | (OutOfFuel, s', w') => (OutOfFuel, s', w')
        end
  end.

Definition defaultConfig : Config := mkConfig 50000 25000.

Definition NewStorage (filename : string) (mode : Z) (config : option Config)
  (w : World) : outcome Storage * World :=
  let config := default defaultConfig config in
  match os_OpenFile filename w with
  | (Ok f, w1) =>
      let s := mkStorage filename f 0 0 false ∅ 0 config in
      match load_loop (S (length (content w1 filename))) s w1 with
      | (Ok _, s', w') => (Ok s', w')
      | (Err e, _, w') => (Err e, w')
      | (Panic, _, w') => (Panic, w')
      | (Blocked, _, w') => (Blocked, w')
      | (OutOfFuel, _, w') => (OutOfFuel, w')
      end
  | (Err e, w1) =>
      (Err (wrapf ("opening database file " +:+ filename +:+ ": ") e), w1)
  | (Panic, w1) => (Panic, w1)
  | (Blocked, w1) => (Blocked, w1)
  | (OutOfFuel, w1) => (OutOfFuel, w1)
  end.

Definition Get (key : string) (s : Storage) (w : World) : list byte * bool :=
  match data s !! key with
  | None => ([], false)
  | Some val => (d_value (deref w val), true)
  end.

Definition Storage_Set (key : string) (value : list byte) : M unit :=
  d <- Load key ;;
  match d with
  | Some d => wrap "reclaiming datum space: " (reclaimSpace d)
  | None => ret tt
  end ;;;
  appendDatum key value.

Definition Delete (key : string) : M unit :=
  d <- LoadAndDelete key ;;
  match d with
  | Some d => wrap "reclaiming datum space: " (reclaimSpace d)
  | None => ret tt
  end.

Definition Name (s : Storage) : string := name s.

(** The loop of [Snapshot] over the entries of the index, in the order
    [entries] in which the [range] statement happens to yield them; the
    state threaded through is the snapshot's Storage. *)
Fixpoint snapshot_loop (entries : list (string * nat)) : M unit :=
  match entries with
  | [] => ret tt
  | (k, v) :: rest =>
      w <- getW ;;
      (if decide (datum_Deleted (deref w v) <> x01)
       then wrap ("setting '" +:+ k +:+ "': ") (writeDatumToFile v)
       else ret tt) ;;;
      snapshot_loop rest
  end.

(** [Snapshot], given the order in which the index is iterated. *)
Definition Snapshot_in (entries : list (string * nat)) (snapname : string)
  (perms : Z) : M unit :=
  fun s w =>
    let r := os_Remove snapname w in
    if match r.1 with Some e => negb (is_ErrNotExist e) | None => false end
    then (Err (default io_EOF r.1), s, r.2)
    else
      match NewStorage snapname perms (Some (mkConfig 0 0)) r.2 with
      | (Ok snap, w1) =>
          match (snapshot_loop entries ;;; Close) snap w1 with
          | (Ok _, _, w2) => (Ok tt, s, w2)
          | (Err e, _, w2) => (Err e, s, w2)
          | (Panic, _, w2) => (Panic, s, w2)
          | (Blocked, _, w2) => (Blocked, s, w2)
          | (OutOfFuel, _, w2) => (OutOfFuel, s, w2)
          end
      | (Err e, w1) => (Err e, s, w1)
      | (Panic, w1) => (Panic, s, w1)
      | (Blocked, w1) => (Blocked, s, w1)
      | (OutOfFuel, w1) => (OutOfFuel, s, w1)
      end.

Definition Snapshot (snapname : string) (perms : Z) : M unit :=
  fun s w => Snapshot_in (map_to_list (data s)) snapname perms s w.

(** ** Sequences of operations *)

Inductive op : Type :=
  | OpSet (key : string) (value : list byte)
  | OpDelete (key : string).

Definition run_op (o : op) : M unit :=
  match o with
  | OpSet k v => Storage_Set k v
  | OpDelete k => Delete k
  end.

(** The operations one after the other, each returning a nil error. *)
Fixpoint run_ops (ops : list op) : M unit :=
  match ops with
  | [] => ret tt
  | o :: rest => run_op o ;;; run_ops rest
  end.

(** * Specification-level definitions *)

(** The sizes of a header are [uint32] values. *)
Definition meta_ok (m : meta) : Prop :=
  0 <= keySize m < 4294967296 /\ 0 <= valSize m < 4294967296.

(** The bytes of a record on disk. *)
Definition encode (d : datum) : list byte :=
  meta_Bytes (d_meta d) ++ list_byte_of_string (d_key d) ++ d_value d.

(** A datum whose sizes are those of its key and value and whose record
    fits in 32 bits. *)
Definition wf (d : datum) : Prop :=
  keySize (d_meta d) = len (list_byte_of_string (d_key d)) /\
  valSize (d_meta d) = len (d_value d) /\
  metaSize + len (list_byte_of_string (d_key d)) + len (d_value d) < 4294967296.

(** No fault is pending and the file is open. *)
Definition io_ok (s : Storage) (w : World) : Prop :=
  faults w = [] /\ f_closed (file s) = false.

(** The file that holds the records [ds] one after the other. *)
Fixpoint encode_log (ds : list datum) : list byte :=
  match ds with
  | [] => []
  | d :: rest => encode d ++ encode_log rest
  end.

(** What the scan of [NewStorage] leaves in the index, the heap and [idx]
    after reading the records [ds]. *)
Fixpoint load_pure (ds : list datum) (m : gmap string nat) (h : list datum) (ix : Z)
  : gmap string nat * list datum * Z :=
  match ds with
  | [] => (m, h, ix)
  | d :: rest =>
      if decide (deleted (d_meta d) = x01)
      then load_pure rest m h (u32 (ix + datum_Size d))
      else load_pure rest (<[d_key d := length h]> m) (h ++ [with_idx ix d])
                     (u32 (ix + datum_Size d))
  end.

(** The vacuum threshold is not reached by the next [n] writes. *)
Definition quota (s : Storage) (n : Z) : Prop :=
  VacuumBatch (config s) <= 0 \/
  (0 <= writeCountVacuum s /\ writeCountVacuum s + n < VacuumBatch (config s)).

(** The next write reaches the fsync batch size. *)
Definition sync_due (s : Storage) : Prop :=
  FsyncBatch (config s) > 0 /\ u64 (writeCountSync s + 1) >= FsyncBatch (config s).

(** The Storage after a write that left the file offset at [pos]. *)
Definition after_write (s : Storage) (pos : Z) : Storage :=
  mkStorage (name s) (mkFile (f_path (file s)) pos false)
    (if decide (sync_due s) then 0 else u64 (writeCountSync s + 1))
    (u64 (writeCountVacuum s + 1)) false (data s) (idx s) (config s).

(** The world after the fsync of a write, when one is due. *)
Definition synced (s : Storage) (w : World) : World :=
  if decide (sync_due s) then log_event (EvSync (f_path (file s))) w else w.

(** The index as the map it denotes, from keys to values. *)
Definition index_view (s : Storage) (w : World) : gmap string (list byte) :=
  (fun p => d_value (deref w p)) <$> data s.

(** The key and the value fit the 32-bit sizes of a record. *)
Definition fits (key : string) (value : list byte) : Prop :=
  metaSize + len (list_byte_of_string key) + len value < 4294967296.

(** What the public operations need of a Storage to run undisturbed. *)
Record Light (s : Storage) (w : World) : Prop := {
  l_io : io_ok s w;
  l_mu : muFile s = false;
  l_ptr : forall k p, data s !! k = Some p ->
            exists d, heap w !! p = Some d /\ 0 <= d_idx d
}.

(** ** The map that a sequence of operations denotes *)

Definition apply_op (m : gmap string (list byte)) (o : op) : gmap string (list byte) :=
  match o with
  | OpSet k v => <[k := v]> m
  | OpDelete k => delete k m
  end.

Definition op_key (o : op) : string :=
  match o with OpSet k _ => k | OpDelete k => k end.

Definition op_fits (o : op) : Prop :=
  match o with OpSet k v => fits k v | OpDelete _ => True end.

(** The last operation of [ops] on [k] is [Set(k, v)]. *)
Definition last_set (ops : list op) (k : string) (v : list byte) : Prop :=
  exists pre post,
    ops = pre ++ OpSet k v :: post /\ Forall (fun o => op_key o <> k) post.

(** Every record of the log carries its own offset in [d_idx]. *)
Fixpoint offsets_ok (base : Z) (ds : list datum) : Prop :=
  match ds with
  | [] => True
  | d :: rest => d_idx d = base /\ offsets_ok (base + len (encode d)) rest
  end.

(** The log after the live record of key [k] is given its tombstone. *)
Definition tombstone (k : string) (ds : list datum) : list datum :=
  (fun d => if decide (d_key d = k /\ deleted (d_meta d) <> x01)
            then datum_MarkDeleted d else d) <$> ds.

(** ** The log invariant: the file is the log, and the index is its live part *)

Record Inv' (m : gmap string nat) (path : string) (w : World) (ds : list datum)
  : Prop := {
  v_file : fs w !! path = Some (encode_log ds);
  v_wf : Forall wf ds;
  v_size : len (encode_log ds) < 4294967296;
  v_off : offsets_ok 0 ds;
  v_del : Forall (fun d => deleted (d_meta d) = x00 \/ deleted (d_meta d) = x01) ds;
  v_idx : forall k p, m !! k = Some p ->
            exists d, heap w !! p = Some d /\ d ∈ ds /\ d_key d = k /\
                      deleted (d_meta d) <> x01;
  v_live : forall d, d ∈ ds -> deleted (d_meta d) <> x01 ->
            exists p, m !! d_key d = Some p /\ heap w !! p = Some d
}.

(** The invariant of an open Storage over the log [ds] of its file. *)
Record Inv (s : Storage) (w : World) (ds : list datum) : Prop := {
  i_io : io_ok s w;
  i_mu : muFile s = false;
  i_log : Inv' (data s) (f_path (file s)) w ds
}.

(** The log after an operation. *)
Definition log_after (ds : list datum) (o : op) : list datum :=
  match o with
  | OpSet k v =>
      tombstone k ds ++ [with_idx (len (encode_log ds)) (datum_Set newDatum k v)]
  | OpDelete k => tombstone k ds
  end.

(** The number of bytes an operation appends to the file. *)
Definition op_size (o : op) : Z :=
  match o with
  | OpSet k v => metaSize + len (list_byte_of_string k) + len v
  | OpDelete _ => 0
  end.

(** ** What a scan of the log makes of the index: later records win,
    tombstoned records are passed over *)

Definition replay_step (m : gmap string (list byte)) (d : datum)
  : gmap string (list byte) :=
  if decide (deleted (d_meta d) = x01) then m else <[d_key d := d_value d]> m.

Definition replay (ds : list datum) : gmap string (list byte) :=
  foldl replay_step ∅ ds.

Definition view_of (m : gmap string nat) (h : list datum) : gmap string (list byte) :=
  (fun p => d_value (default newDatum (h !! p))) <$> m.

(** The keys of the records of a log that carry no tombstone. *)
Definition live_keys (ds : list datum) : list string :=
  d_key <$> filter (fun d => deleted (d_meta d) <> x01) ds.

(** A log as the store leaves it: well-formed records at their offsets, at
    most one live record per key, less than 4 GiB in all. *)
Record clean (ds : list datum) : Prop := {
  c_wf : Forall wf ds;
  c_off : offsets_ok 0 ds;
  c_del : Forall (fun d => deleted (d_meta d) = x00 \/ deleted (d_meta d) = x01) ds;
  c_nodup : NoDup (live_keys ds);
  c_size : len (encode_log ds) < 4294967296
}.

(** The index [m] over the heap [h] holds the live records of [pre], and
    only those. *)
Definition PI (pre : list datum) (m : gmap string nat) (h : list datum) : Prop :=
  (forall k p, m !! k = Some p ->
     exists d, h !! p = Some d /\ d ∈ pre /\ d_key d = k /\ deleted (d_meta d) <> x01) /\
  (forall d, d ∈ pre -> deleted (d_meta d) <> x01 ->
     exists p, m !! d_key d = Some p /\ h !! p = Some d).

(** The number of bytes a sequence of operations appends to the file. *)
Fixpoint ops_size (ops : list op) : Z :=
  match ops with
  | [] => 0
  | o :: rest => op_size o + ops_size rest
  end.

(** The message of a body cut short, as [readDatum] words it. *)
Definition short_body_message (n need : Z) : string :=
  "reading database file: reading key/val data: read "
  +:+ fmt_d n +:+ " bytes, need " +:+ fmt_d need.

(** The records of a log that carry no tombstone, in their order. *)
Definition live_part (ds : list datum) : list datum :=
  filter (fun d => deleted (d_meta d) <> x01) ds.

(** The events of the trace that are writes. *)
Definition is_write (e : event) : bool :=
  match e with EvWrite _ _ _ => true | _ => false end.

(** The writes of a trace, in the order they were issued. *)
Definition writes (t : list event) : list event := filter (fun e => is_write e) t.

(** [NewStorage] followed by operations that all return a nil error: the
    Storage and the world they leave. *)
Definition session (filename : string) (mode : Z) (cfg : option Config)
  (ops : list op) (w0 : World) : option (Storage * World) :=
  match NewStorage filename mode cfg w0 with
  | (Ok s0, w1) =>
      match run_ops ops s0 w1 with
      | (Ok _, s, w) => Some (s, w)
      | _ => None
      end
  | _ => None
  end.

(** Vacuuming is off, or it takes more than [n] writes to trigger it. *)
Definition vacuum_free (cfg : option Config) (n : Z) : Prop :=
  VacuumBatch (default defaultConfig cfg) = 0 \/
  n < VacuumBatch (default defaultConfig cfg).

(** An operating system with no file, no fault to come and an empty trace. *)
Definition world0 : World := mkWorld ∅ [] [] [].

(** The conversion [[]byte(s)]. *)
Definition bytes (s : string) : list byte := list_byte_of_string s.

(** A key set twice, and a key set and then deleted. *)
Definition ops1 : list op :=
  [OpSet "frodo" (bytes "He deserves death"); OpSet "gandalf" (bytes "Fool of a Took!");
   OpDelete "gandalf"; OpSet "frodo" (bytes "ring")].

(** A key set and deleted, and a key set twice. *)
Definition ops3 : list op :=
  [OpSet "galadriel" (bytes "I amar prestar aen"); OpSet "frodo" (bytes "He deserves death");
   OpSet "frodo" (bytes "ring"); OpDelete "galadriel"].

(** Four records, the first and the third with a tombstone. *)
Definition log4 : list datum :=
  [mkDatum (mkMeta 6 4 x01) "sauron" (bytes "I se") 0;
   mkDatum (mkMeta 3 4 x00) "tom" (bytes "Ring") 19;
   mkDatum (mkMeta 7 3 x01) "faramir" (bytes "War") 35;
   mkDatum (mkMeta 6 3 x00) "elrond" (bytes "Let") 54].

(** A Storage opened on the file of [log4], and the world it lives in. *)
Definition store4 : Storage :=
  mkStorage "db" (mkFile "db" 0 false) 0 0 false {[ "tom" := 1%nat; "elrond" := 3%nat ]} 72
    (mkConfig 0 0).

Definition world4 : World :=
  mkWorld {[ "db" := encode_log log4 ]} log4 [] [].

(** The tombstone goes through (a seek and a write), so does the seek to
    the end of the file; the write of the new record fails after 3 bytes. *)
Definition faults10 : list (option fault) :=
  [None; None; None; Some (mkFault 3 "no space left on device")].

(** A file that ends in the middle of its second record: a header that
    announces 27 bytes, and 15 of them. *)
Definition world6 : World :=
  mkWorld {[ "db" := encode_log [datum_Set newDatum "frodo" (bytes "ring")]
                     ++ meta_Bytes (mkMeta 9 18 x00) ++ bytes "galadriel" ++ bytes "I amar" ]}
          [] [] [].

(** A file that ends after a header with a tombstone: none of the 27 bytes
    it announces are there. *)
Definition world6t : World :=
  mkWorld {[ "db" := meta_Bytes (mkMeta 9 18 x01) ]} [] [] [].

(** The record of a key and a value, with a given deleted byte. *)
Definition record (key : string) (value : list byte) (del : byte) : datum :=
  with_meta (fun m => mkMeta (keySize m) (valSize m) del) (datum_Set newDatum key value).

(** A key of 2^32 - 9 bytes. *)
Definition big_key : string :=
  string_of_list_byte (repeat x00 (Z.to_nat 4294967287)).

(** Invariant 1 of the data model: every entry of the index points at a
    record of the file with a zero deleted byte and the entry's key. *)
Definition index_on_disk (s : Storage) (w : World) : Prop :=
  forall k p, data s !! k = Some p ->
    exists m rest,
      drop (Z.to_nat (d_idx (deref w p))) (content w (f_path (file s)))
        = meta_Bytes m ++ list_byte_of_string k ++ rest /\
      keySize m = len (list_byte_of_string k) /\ deleted m = x00.

(** Neither periodic vacuum nor periodic fsync. *)
Definition cfg_off : option Config := Some (mkConfig 0 0).

(** Two keys, the first of them deleted. *)
Definition ops2 : list op :=
  [OpSet "a" (bytes "x"); OpSet "b" (bytes "y"); OpDelete "a"].

(** One key, set twice. *)
Definition ops5 : list op := [OpSet "a" (bytes "x"); OpSet "a" (bytes "y")].

(** A vacuum after every write. *)
Definition cfg9 : option Config := Some (mkConfig 1 0).

(** * Byte-level facts about the codec *)

Lemma u32_small z : 0 <= z < 4294967296 -> u32 z = z.
Proof. intros. unfold u32. apply Z.mod_small; lia. Qed.

Lemma u32_range z : 0 <= u32 z < 4294967296.
Proof. unfold u32. apply Z.mod_pos_bound. lia. Qed.

Lemma len_app {A} (a b : list A) : len (a ++ b) = len a + len b.
Proof. unfold len. rewrite length_app. lia. Qed.

Lemma len_nonneg {A} (a : list A) : 0 <= len a.
Proof. unfold len. lia. Qed.

Lemma length_PutUint32 v : length (PutUint32 v) = 4%nat.
Proof. apply length_le_split. Qed.

Lemma Uint32_PutUint32 v rest :
  0 <= v < 4294967296 -> Uint32 (PutUint32 v ++ rest) = v.
Proof.
  intros Hv. unfold Uint32.
  rewrite (take_app_length' (PutUint32 v)) by (rewrite length_PutUint32; reflexivity).
  unfold PutUint32. rewrite le_combine_split.
  change (2 ^ (Z.of_nat 4 * 8)) with 4294967296. apply Z.mod_small; lia.
Qed.

Lemma length_meta_Bytes m : length (meta_Bytes m) = 9%nat.
Proof. unfold meta_Bytes. rewrite !length_app, !length_PutUint32. reflexivity. Qed.

Lemma meta_FromBytes_Bytes m0 m :
  meta_ok m -> meta_FromBytes m0 (meta_Bytes m) = Ok m.
Proof.
  intros [Hk Hv]. unfold meta_FromBytes.
  destruct (decide _) as [Hne|_].
  { exfalso. apply Hne. unfold len. rewrite length_meta_Bytes. reflexivity. }
  destruct m as [k v dl]; cbn [keySize valSize deleted] in *.
  unfold meta_Bytes; cbn [keySize valSize deleted].
  f_equal. f_equal.
  - rewrite (take_app_length' (PutUint32 k)) by (rewrite length_PutUint32; reflexivity).
    rewrite <- (app_nil_r (PutUint32 k)). by apply Uint32_PutUint32.
  - rewrite (drop_app_length' (PutUint32 k)) by (rewrite length_PutUint32; reflexivity).
    rewrite (take_app_length' (PutUint32 v)) by (rewrite length_PutUint32; reflexivity).
    rewrite <- (app_nil_r (PutUint32 v)). by apply Uint32_PutUint32.
Qed.

Lemma wf_meta_ok d : wf d -> meta_ok (d_meta d).
Proof.
  intros (Hk & Hv & Hs). unfold meta_ok, metaSize in *. rewrite Hk, Hv.
  pose proof (len_nonneg (list_byte_of_string (d_key d))).
  pose proof (len_nonneg (d_value d)). lia.
Qed.

Lemma len_encode d :
  len (encode d) = 9 + len (list_byte_of_string (d_key d)) + len (d_value d).
Proof.
  unfold encode. rewrite !len_app. unfold len at 1. rewrite length_meta_Bytes. lia.
Qed.

Lemma wf_Size d : wf d -> datum_Size d = len (encode d).
Proof.
  intros (Hk & Hv & Hs). rewrite len_encode. unfold datum_Size, metaSize in *.
  pose proof (len_nonneg (list_byte_of_string (d_key d))).
  pose proof (len_nonneg (d_value d)).
  rewrite Hk, Hv. rewrite !u32_small; rewrite ?u32_small; lia.
Qed.

Lemma length_make n : length (make n) = Z.to_nat n.
Proof. unfold make. apply repeat_length. Qed.

Lemma copy_slice_spec (b : list byte) lo hi src :
  0 <= lo -> lo <= hi -> hi <= len b -> len src = hi - lo ->
  copy_slice b lo hi src =
    Ok (take (Z.to_nat lo) b ++ src ++ drop (Z.to_nat hi) b).
Proof.
  intros H0 H1 H2 H3. unfold copy_slice.
  destruct (decide _) as [_|Hn]; [|exfalso; apply Hn; lia].
  unfold len in *.
  replace (Nat.min (Z.to_nat (hi - lo)) (length src)) with (length src) by lia.
  rewrite firstn_all. repeat f_equal. lia.
Qed.

Lemma datum_Bytes_wf d : wf d -> datum_Bytes d = Ok (encode d).
Proof.
  intros Hwf. pose proof (wf_Size d Hwf) as HS. rewrite len_encode in HS.
  destruct Hwf as (Hk & Hv & Hs). unfold datum_Bytes.
  set (kb := list_byte_of_string (d_key d)) in *.
  set (mb := meta_Bytes (d_meta d)).
  assert (Hmb : length mb = 9%nat) by apply length_meta_Bytes.
  pose proof (len_nonneg kb) as Hkb. pose proof (len_nonneg (d_value d)) as Hvb.
  rewrite HS. unfold metaSize in *.
  rewrite Hk. rewrite (u32_small (9 + len kb)) by lia.
  set (mk := make (9 + len kb + len (d_value d))).
  assert (Hmk : length mk = (9 + length kb + length (d_value d))%nat).
  { unfold mk. rewrite length_make. unfold len. lia. }
  rewrite (copy_slice_spec mk 0 9 mb); [ | lia | lia | unfold len; lia | unfold len; lia ].
  cbn [obind]. change (Z.to_nat 0) with 0%nat. rewrite take_0, app_nil_l.
  change (Z.to_nat 9) with 9%nat.
  rewrite (copy_slice_spec _ 9 (9 + len kb) kb);
    [ | lia | lia | unfold len; rewrite length_app, length_drop; lia | lia ].
  cbn [obind]. change (Z.to_nat 9) with 9%nat.
  rewrite (take_app_length' mb) by done.
  replace (Z.to_nat (9 + len kb)) with (length mb + length kb)%nat by (unfold len; lia).
  rewrite drop_app_ge by lia.
  replace (length mb + length kb - length mb)%nat with (length kb) by lia.
  rewrite drop_drop.
  set (tl := drop (9 + length kb) mk).
  assert (Htl : length tl = length (d_value d)).
  { unfold tl. rewrite length_drop. lia. }
  rewrite (copy_slice_spec _ (9 + len kb) _ (d_value d));
    [ | lia | unfold len; rewrite !length_app; lia | lia
      | unfold len; rewrite !length_app; lia ].
  cbn [obind]. f_equal. unfold encode. fold kb mb.
  rewrite drop_ge by (unfold len; lia). rewrite app_nil_r.
  replace (Z.to_nat (9 + len kb)) with (length (mb ++ kb)) by (rewrite length_app; unfold len; lia).
  rewrite app_assoc. rewrite take_app_length. rewrite <- app_assoc. reflexivity.
Qed.

Lemma slice_spec (a b c : list byte) lo hi :
  lo = len a -> hi = len a + len b ->
  slice (a ++ b ++ c) lo hi = Ok b.
Proof.
  intros -> ->. unfold slice. pose proof (len_nonneg a). pose proof (len_nonneg b).
  destruct (decide _) as [_|Hn].
  2:{ exfalso. apply Hn. rewrite !len_app. pose proof (len_nonneg c). lia. }
  f_equal. replace (Z.to_nat (len a)) with (length a) by (unfold len; lia).
  rewrite drop_app_length.
  replace (Z.to_nat (len a + len b - len a)) with (length b) by (unfold len; lia).
  apply take_app_length.
Qed.

Lemma datum_KeyValFromBytes_wf d i k0 v0 :
  wf d ->
  datum_KeyValFromBytes (mkDatum (d_meta d) k0 v0 i)
    (list_byte_of_string (d_key d) ++ d_value d) = Ok (with_idx i d).
Proof.
  intros (Hk & Hv & Hs). unfold datum_KeyValFromBytes. cbn [d_meta d_idx].
  set (kb := list_byte_of_string (d_key d)) in *.
  pose proof (len_nonneg kb) as Hkb. pose proof (len_nonneg (d_value d)) as Hvb.
  unfold metaSize in *.
  rewrite Hk, Hv, len_app.
  destruct (decide _) as [Hn|_]; [congruence|].
  rewrite (u32_small (len kb + len (d_value d))) by lia.
  rewrite (slice_spec [] kb (d_value d)) by (unfold len; simpl; lia).
  cbn [obind].
  rewrite <- (app_nil_r (d_value d)) at 1.
  rewrite (slice_spec kb (d_value d) []) by lia.
  cbn [obind]. unfold kb. rewrite string_of_list_byte_of_string.
  destruct d as [m k v ix]; reflexivity.
Qed.

#[local] Arguments u32 : simpl never.
#[local] Arguments u64 : simpl never.
#[local] Arguments len : simpl never.
#[local] Arguments make : simpl never.
#[local] Arguments encode : simpl never.
#[local] Arguments meta_Bytes : simpl never.
#[local] Arguments content : simpl never.
#[local] Arguments write_at : simpl never.
#[local] Arguments fmt_d : simpl never.
#[local] Arguments datum_Size : simpl never.
#[local] Arguments Z.add : simpl never.
#[local] Arguments Z.sub : simpl never.
#[local] Arguments Z.to_nat : simpl never.
#[local] Arguments String.append : simpl never.

(** * Reading one record from a file without I/O faults *)

Lemma pop_fault_nil w : faults w = [] -> pop_fault w = (None, w).
Proof. intros H. unfold pop_fault. by rewrite H. Qed.

Lemma file_Read_zero s w : f_closed (file s) = false ->
  file_Read 0 s w = (Ok ([], None), s, w).
Proof. intros H. unfold file_Read. rewrite H. reflexivity. Qed.

Lemma file_Read_some s w n a c got :
  io_ok s w -> 
  content w (f_path (file s)) = a ++ got ++ c ->
  f_pos (file s) = len a -> n = len got -> got <> [] ->
  file_Read n s w = (Ok (got, None), set_pos (f_pos (file s) + len got) s, w).
Proof.
  intros [Hf Hc] Hcont Hpos -> Hne. unfold file_Read. rewrite Hc.
  destruct (decide (len got = 0)) as [H0|_].
  { destruct got; [done|]. unfold len in H0. simpl in H0. lia. }
  rewrite pop_fault_nil by done. cbv zeta.
  rewrite Hcont, Hpos.
  replace (Z.to_nat (len a)) with (length a) by (unfold len; lia).
  rewrite drop_app_length.
  replace (Z.to_nat (len got)) with (length got) by (unfold len; lia).
  rewrite take_app_length. destruct got; [done|]. reflexivity.
Qed.

Lemma file_Read_eof s w n :
  io_ok s w -> n <> 0 ->
  len (content w (f_path (file s))) <= f_pos (file s) ->
  file_Read n s w = (Ok ([], Some io_EOF), s, w).
Proof.
  intros [Hf Hc] Hn Hpos. unfold file_Read. rewrite Hc.
  destruct (decide (n = 0)); [done|].
  rewrite pop_fault_nil by done. cbv zeta.
  rewrite drop_ge by (unfold len in *; lia). rewrite take_nil. reflexivity.
Qed.

Lemma readDatum_eof s w :
  io_ok s w ->
  len (content w (f_path (file s))) <= f_pos (file s) ->
  readDatum s w = (Err io_EOF, s, w).
Proof.
  intros Hio Hpos. unfold readDatum, bind.
  rewrite file_Read_eof by done. reflexivity.
Qed.

Ltac sto :=
  unfold set_pos, set_idx, set_file, set_muFile, set_data, set_writeCountSync,
    set_writeCountVacuum in *;
  cbn [name file writeCountSync writeCountVacuum muFile data idx config
       f_path f_pos f_closed] in *.

Ltac sto_eq := sto; repeat (f_equal; try lia).

Lemma io_ok_same s s' w :
  f_closed (file s') = f_closed (file s) -> io_ok s w -> io_ok s' w.
Proof. intros E [H1 H2]. split; [done|congruence]. Qed.

Lemma readDatum_live s w pre d post :
  io_ok s w -> wf d -> deleted (d_meta d) <> x01 ->
  content w (f_path (file s)) = pre ++ encode d ++ post ->
  f_pos (file s) = len pre ->
  readDatum s w =
    (Ok (Some (with_idx (idx s) d)),
     set_idx (u32 (idx s + datum_Size d)) (set_pos (len pre + len (encode d)) s), w).
Proof.
  intros Hio Hwf Hlive Hcont Hpos.
  pose proof (wf_meta_ok d Hwf) as Hmok.
  pose proof (wf_Size d Hwf) as HS. rewrite len_encode in HS.
  pose proof Hwf as (Hk & Hv & Hs).
  set (kb := list_byte_of_string (d_key d)) in *.
  pose proof (len_nonneg kb) as Hkb. pose proof (len_nonneg (d_value d)) as Hvb.
  assert (Hmb : len (meta_Bytes (d_meta d)) = 9)
    by (unfold len; rewrite length_meta_Bytes; reflexivity).
  unfold readDatum, bind.
  unfold encode in Hcont. rewrite <- app_assoc in Hcont.
  rewrite (file_Read_some s w metaSize pre _ (meta_Bytes (d_meta d)) Hio Hcont Hpos).
  2:{ by rewrite Hmb. }
  2:{ intros E. rewrite E in Hmb. done. }
  cbn [fst snd]. rewrite Hmb.
  change (metaSize - 9) with 0.
  change (make 0) with (@nil byte). rewrite app_nil_r.
  unfold wrap, lift. rewrite meta_FromBytes_Bytes by done.
  destruct (decide (deleted (d_meta d) = x01)) as [|_]; [done|].
  rewrite Hk, Hv. fold kb. rewrite (u32_small (len kb + len (d_value d))) by (unfold metaSize in *; lia).
  set (s1 := set_pos _ s).
  assert (Hio1 : io_ok s1 w) by (eapply io_ok_same; [|exact Hio]; reflexivity).
  assert (Hrd : file_Read (len kb + len (d_value d)) s1 w
     = (Ok (kb ++ d_value d, None), set_pos (len pre + len (encode d)) s, w)).
  { destruct (decide (kb ++ d_value d = [])) as [E|Hne].
    - rewrite E. apply app_eq_nil in E as [E1 E2]. rewrite E1, E2.
      change (len [] + len []) with 0. rewrite file_Read_zero by apply Hio1.
      unfold s1. rewrite len_encode. fold kb. rewrite E1, E2, Hpos.
      change (@len byte []) with 0. sto_eq.
    - rewrite (file_Read_some s1 w _ (pre ++ meta_Bytes (d_meta d)) post (kb ++ d_value d)); try done.
      + unfold s1. rewrite len_encode, Hpos. fold kb. rewrite len_app. sto_eq.
      + unfold s1. sto. rewrite Hcont.
        rewrite <- !app_assoc. reflexivity.
      + unfold s1. sto. rewrite Hpos, len_app. lia.
      + rewrite len_app. reflexivity. }
  rewrite Hrd. cbn [fst snd].
  rewrite len_app. replace (len kb + len (d_value d) - (len kb + len (d_value d))) with 0 by lia.
  change (make 0) with (@nil byte). rewrite app_nil_r.
  rewrite (u32_small (len kb + len (d_value d))) by (unfold metaSize in *; lia).
  destruct (decide _) as [|_]; [done|].
  unfold getS.
  change (idx (set_pos (len pre + len (encode d)) s)) with (idx s).
  unfold kb. rewrite datum_KeyValFromBytes_wf by done.
  unfold modS, ret. cbn [with_idx d_meta d_key d_value d_idx].
  change (datum_Size (with_idx (idx s) d)) with (datum_Size d). 
  reflexivity.
Qed.

Lemma readDatum_deleted s w pre d post :
  io_ok s w -> wf d -> deleted (d_meta d) = x01 ->
  content w (f_path (file s)) = pre ++ encode d ++ post ->
  f_pos (file s) = len pre ->
  readDatum s w =
    (Ok None,
     set_idx (u32 (idx s + datum_Size d)) (set_pos (len pre + len (encode d)) s), w).
Proof.
  intros Hio Hwf Hdel Hcont Hpos.
  pose proof (wf_meta_ok d Hwf) as Hmok.
  pose proof (wf_Size d Hwf) as HS. rewrite len_encode in HS.
  pose proof Hwf as (Hk & Hv & Hs).
  set (kb := list_byte_of_string (d_key d)) in *.
  pose proof (len_nonneg kb) as Hkb. pose proof (len_nonneg (d_value d)) as Hvb.
  assert (Hmb : len (meta_Bytes (d_meta d)) = 9)
    by (unfold len; rewrite length_meta_Bytes; reflexivity).
  unfold readDatum, bind.
  unfold encode in Hcont. rewrite <- app_assoc in Hcont.
  rewrite (file_Read_some s w metaSize pre _ (meta_Bytes (d_meta d)) Hio Hcont Hpos).
  2:{ by rewrite Hmb. }
  2:{ intros E. rewrite E in Hmb. done. }
  cbn [fst snd]. rewrite Hmb.
  change (metaSize - 9) with 0.
  change (make 0) with (@nil byte). rewrite app_nil_r.
  unfold wrap, lift. rewrite meta_FromBytes_Bytes by done.
  destruct (decide (deleted (d_meta d) = x01)) as [_|]; [|done].
  rewrite Hk, Hv. fold kb. rewrite (u32_small (len kb + len (d_value d))) by (unfold metaSize in *; lia).
  unfold file_Seek. destruct Hio as [Hf Hc].
  change (f_closed (file (set_pos (f_pos (file s) + 9) s))) with (f_closed (file s)).
  rewrite Hc, pop_fault_nil by done. cbv zeta.
  destruct (decide (1 = 0)) as [|_]; [done|].
  destruct (decide (1 = 1)) as [_|]; [|done].
  destruct (decide _) as [Hneg|_].
  { exfalso. revert Hneg. sto. pose proof (len_nonneg pre). lia. }
  unfold modS, ret. rewrite HS, len_encode. fold kb. unfold metaSize.
  rewrite (u32_small (len kb + len (d_value d) + 9)) by (unfold metaSize in *; lia).
  rewrite Hpos. sto_eq.
Qed.

(** * The open-time scan over a log of records *)

Lemma encode_log_app a b : encode_log (a ++ b) = encode_log a ++ encode_log b.
Proof. induction a as [|d a IH]; simpl; [done|]. by rewrite IH, app_assoc. Qed.

Lemma load_loop_log ds : forall fuel s w pre,
  io_ok s w -> Forall wf ds ->
  content w (f_path (file s)) = pre ++ encode_log ds ->
  f_pos (file s) = len pre ->
  (length ds < fuel)%nat ->
  load_loop fuel s w =
    let r := load_pure ds (data s) (heap w) (idx s) in
    (Ok tt,
     mkStorage (name s)
       (mkFile (f_path (file s)) (len pre + len (encode_log ds)) false)
       (writeCountSync s) (writeCountVacuum s) (muFile s) r.1.1 r.2 (config s),
     set_heap r.1.2 w).
Proof.
  induction ds as [|d ds IH]; intros fuel s w pre Hio Hwf Hcont Hpos Hfuel.
  - destruct fuel as [|fuel]; [simpl in Hfuel; lia|]. simpl.
    rewrite readDatum_eof; [|done|].
    2:{ rewrite Hcont, Hpos. simpl. rewrite app_nil_r. lia. }
    simpl. destruct Hio as [Hf Hc].
    destruct s as [? [? ? ?] ? ? ? ? ? ?], w; simpl in *. subst.
    change (len []) with 0. rewrite Z.add_0_r. reflexivity.
  - destruct fuel as [|fuel]; [simpl in Hfuel; lia|].
    inversion Hwf as [|? ? Hd Hds]; subst.
    cbn [load_loop encode_log load_pure].
    cbn [encode_log] in Hcont.
    destruct (decide (deleted (d_meta d) = x01)) as [Hdel|Hlive].
    + rewrite (readDatum_deleted s w pre d (encode_log ds)) by done.
      rewrite (IH fuel _ w (pre ++ encode d)).
      * cbv zeta. sto. rewrite !len_app. repeat (f_equal; try lia).
      * eapply io_ok_same; [|exact Hio]. reflexivity.
      * done.
      * sto. rewrite Hcont. apply app_assoc.
      * sto. by rewrite len_app.
      * simpl in Hfuel. lia.
    + rewrite (readDatum_live s w pre d (encode_log ds)) by done.
      unfold bind, alloc, Store, modS.
      rewrite (IH fuel _ _ (pre ++ encode d)).
      * cbv zeta. sto. rewrite !len_app. 
        cbn [heap set_heap]. 
        destruct (load_pure _ _ _ _) as [[m' h'] ix']. cbn [fst snd].
        unfold set_heap; cbn [fs heap faults trace]. repeat (f_equal; try lia).
      * destruct Hio. split; [done|]. done.
      * done.
      * sto. unfold content in *. cbn [fs set_heap]. rewrite Hcont. apply app_assoc.
      * sto. by rewrite len_app.
      * simpl in Hfuel. lia.
Qed.

(** * Writing without I/O faults and without vacuum *)

Lemma write_at_end (c b : list byte) : write_at c (length c) b = c ++ b.
Proof.
  unfold write_at. rewrite firstn_all, Nat.sub_diag. simpl.
  rewrite drop_ge by lia. by rewrite app_nil_r.
Qed.

Lemma write_at_mid (a x c y : list byte) :
  length x = length y -> write_at (a ++ x ++ c) (length a) y = a ++ y ++ c.
Proof.
  intros E. unfold write_at. rewrite take_app_length.
  replace (length a - length (a ++ x ++ c))%nat with 0%nat by (rewrite !length_app; lia).
  simpl. rewrite drop_app_ge by lia.
  replace (length a + length y - length a)%nat with (length x) by lia.
  by rewrite drop_app_length.
Qed.

Lemma content_do_write path pos b w :
  content (do_write path pos b w) path = write_at (content w path) (Z.to_nat pos) b.
Proof. unfold do_write, content. simpl. by rewrite lookup_insert_eq. Qed.

Lemma fs_do_write_ne path pos b w q :
  q <> path -> fs (do_write path pos b w) !! q = fs w !! q.
Proof. intros. unfold do_write. simpl. by rewrite lookup_insert_ne. Qed.

Lemma u64_le z : 0 <= z -> 0 <= u64 z <= z.
Proof. intros. unfold u64. split; [apply Z.mod_pos_bound; lia|apply Z.mod_le; lia]. Qed.

Lemma quota_after_write s pos n : 0 <= n -> quota s (n + 1) -> quota (after_write s pos) n.
Proof.
  intros Hn [H|[H1 H2]]; [by left|right]. simpl.
  pose proof (u64_le (writeCountVacuum s + 1)). lia.
Qed.

Lemma quota_mono s n m : m <= n -> quota s n -> quota s m.
Proof. intros Hn [H|[H1 H2]]; [by left|right]. lia. Qed.

Lemma incAndSync_quiet s w :
  io_ok s w -> quota s 1 ->
  incAndSync s w =
    (Ok tt,
     mkStorage (name s) (file s)
       (if decide (sync_due s) then 0 else u64 (writeCountSync s + 1))
       (u64 (writeCountVacuum s + 1)) (muFile s) (data s) (idx s) (config s),
     synced s w).
Proof.
  intros [Hf Hc] Hq. unfold incAndSync, bind, getS, modS. cbn [config set_writeCountSync set_writeCountVacuum name file writeCountSync writeCountVacuum muFile data idx].
  destruct (decide (VacuumBatch (config s) > 0 /\ _)) as [[Hb Hge]|_].
  { exfalso. destruct Hq as [H|[H1 H2]]; [lia|].
    pose proof (u64_le (writeCountVacuum s + 1)). lia. }
  unfold ret. unfold synced, sync_due.
  destruct (decide (FsyncBatch (config s) > 0 /\ _)) as [Hs|Hs].
  - unfold wrap, file_Sync. sto. rewrite Hc.
    rewrite pop_fault_nil by done. reflexivity.
  - reflexivity.
Qed.

Lemma faults_do_write path pos b w : faults (do_write path pos b w) = faults w.
Proof. reflexivity. Qed.

Lemma heap_do_write path pos b w : heap (do_write path pos b w) = heap w.
Proof. reflexivity. Qed.

Lemma bind_ok {A B} (m : M A) (k : A -> M B) s w a s' w' :
  m s w = (Ok a, s', w') -> bind m k s w = k a s' w'.
Proof. intros H. unfold bind. by rewrite H. Qed.

Lemma wrap_ok {A} pre (m : M A) s w a s' w' :
  m s w = (Ok a, s', w') -> wrap pre m s w = (Ok a, s', w').
Proof. intros H. unfold wrap. by rewrite H. Qed.

Lemma file_Seek_start s w off :
  io_ok s w -> 0 <= off ->
  file_Seek off 0 s w = (Ok off, set_pos off s, w).
Proof.
  intros [Hf Hc] H0. unfold file_Seek. rewrite Hc, pop_fault_nil by done.
  cbv zeta. destruct (decide (0 = 0)) as [_|]; [|done].
  rewrite Z.add_0_l. destruct (decide (off < 0)) as [|_]; [lia|]. reflexivity.
Qed.

Lemma file_Seek_end s w :
  io_ok s w ->
  file_Seek 0 2 s w =
    (Ok (len (content w (f_path (file s)))),
     set_pos (len (content w (f_path (file s)))) s, w).
Proof.
  intros [Hf Hc]. unfold file_Seek. rewrite Hc, pop_fault_nil by done.
  cbv zeta. destruct (decide (2 = 0)) as [|_]; [done|].
  destruct (decide (2 = 1)) as [|_]; [done|].
  rewrite Z.add_0_r. destruct (decide (_ < 0)) as [Hn|_]; [unfold len in Hn; lia|].
  reflexivity.
Qed.

Lemma file_Write_quiet s w b :
  io_ok s w ->
  file_Write b s w =
    (Ok (len b), set_pos (f_pos (file s) + len b) s,
     do_write (f_path (file s)) (f_pos (file s)) b w).
Proof.
  intros [Hf Hc]. unfold file_Write. rewrite Hc, pop_fault_nil by done. reflexivity.
Qed.

Lemma file_Sync_quiet s w :
  io_ok s w -> file_Sync s w = (Ok tt, s, log_event (EvSync (f_path (file s))) w).
Proof.
  intros [Hf Hc]. unfold file_Sync. rewrite Hc, pop_fault_nil by done. reflexivity.
Qed.

Lemma writeDeletedByte_quiet p s w :
  io_ok s w -> muFile s = false -> quota s 1 ->
  0 <= d_idx (deref w p) ->
  writeDeletedByte p s w =
    (Ok tt, after_write s (d_idx (deref w p) + 8 + 1),
     synced s (do_write (f_path (file s)) (d_idx (deref w p) + 8)
                 [datum_Deleted (deref w p)] w)).
Proof.
  intros Hio Hmu Hq Hidx. pose proof Hio as [Hf Hc].
  unfold writeDeletedByte, locked. rewrite Hmu.
  set (s0 := set_muFile true s).
  assert (Hio0 : io_ok s0 w) by (eapply io_ok_same; [|exact Hio]; reflexivity).
  erewrite bind_ok; [|reflexivity].
  unfold metaSize. replace (d_idx (deref w p) + 9 - 1) with (d_idx (deref w p) + 8) by lia.
  erewrite bind_ok; [|apply wrap_ok, file_Seek_start; [done|lia]].
  destruct (decide (_ <> _)) as [|_]; [done|].
  erewrite bind_ok; [|apply wrap_ok, file_Write_quiet; eapply io_ok_same; [|exact Hio0]; reflexivity].
  change (len [datum_Deleted (deref w p)]) with 1.
  destruct (decide (1 <> 1)) as [|_]; [done|].
  rewrite incAndSync_quiet.
  - unfold after_write, synced, sync_due, s0. sto. rewrite Hc. reflexivity.
  - split; [done|]. unfold s0. sto. done.
  - exact Hq.
Qed.

Lemma writeDatumToFile_quiet p d s w :
  io_ok s w -> muFile s = false -> quota s 1 ->
  heap w !! p = Some d -> wf d ->
  let off := len (content w (f_path (file s))) in
  writeDatumToFile p s w =
    (Ok tt, after_write s (off + len (encode d)),
     synced s (do_write (f_path (file s)) off (encode d)
                 (set_heap (alter (with_idx (u32 off)) p (heap w)) w))).
Proof.
  intros Hio Hmu Hq Hp Hwf off. pose proof Hio as [Hf Hc].
  assert (Hwf' : wf (with_idx (u32 off) d)) by exact Hwf.
  unfold writeDatumToFile, locked. rewrite Hmu.
  set (s0 := set_muFile true s).
  assert (Hio0 : io_ok s0 w) by (eapply io_ok_same; [|exact Hio]; reflexivity).
  erewrite bind_ok; [|apply wrap_ok, file_Seek_end; done].
  change (f_path (file s0)) with (f_path (file s)). fold off.
  erewrite bind_ok; [|reflexivity].
  erewrite bind_ok; [|reflexivity].
  set (w1 := set_heap _ w).
  assert (Hd1 : deref w1 p = with_idx (u32 off) d).
  { unfold deref, w1. cbn [heap set_heap]. rewrite list_lookup_alter_eq, Hp. reflexivity. }
  rewrite Hd1. unfold lift at 1.
  erewrite bind_ok; [|rewrite datum_Bytes_wf by done; reflexivity].
  erewrite bind_ok; [|apply wrap_ok, file_Write_quiet; split; [done|unfold s0; sto; done]].
  rewrite (wf_Size _ Hwf').
  change (encode (with_idx (u32 off) d)) with (encode d).
  destruct (decide (len (encode d) <> len (encode d))) as [|_]; [done|].
  rewrite incAndSync_quiet.
  - unfold after_write, synced, sync_due, s0. sto. rewrite Hc. reflexivity.
  - split; [done|]. unfold s0. sto. done.
  - exact Hq.
Qed.

Lemma deref_Some w p d : heap w !! p = Some d -> deref w p = d.
Proof. intros H. unfold deref. by rewrite H. Qed.

Lemma reclaimSpace_quiet p d s w :
  io_ok s w -> muFile s = false -> quota s 1 ->
  heap w !! p = Some d -> 0 <= d_idx d ->
  reclaimSpace p s w =
    (Ok tt, after_write s (d_idx d + 8 + 1),
     synced s (do_write (f_path (file s)) (d_idx d + 8) [x01]
                 (set_heap (alter datum_MarkDeleted p (heap w)) w))).
Proof.
  intros Hio Hmu Hq Hp Hidx. unfold reclaimSpace.
  erewrite bind_ok; [|reflexivity].
  set (w1 := set_heap _ w).
  assert (Hd1 : deref w1 p = datum_MarkDeleted d).
  { apply deref_Some. unfold w1. cbn [heap set_heap].
    by rewrite list_lookup_alter_eq, Hp. }
  erewrite wrap_ok; [reflexivity|].
  rewrite writeDeletedByte_quiet; try done.
  - rewrite Hd1. reflexivity.
  - by rewrite Hd1.
Qed.

Lemma appendDatum_quiet key value s w :
  io_ok s w -> muFile s = false -> quota s 1 ->
  wf (datum_Set newDatum key value) ->
  let d := datum_Set newDatum key value in
  let off := len (content w (f_path (file s))) in
  appendDatum key value s w =
    (Ok tt,
     after_write (set_data (<[key := length (heap w)]> (data s)) s)
       (off + len (encode d)),
     synced s (do_write (f_path (file s)) off (encode d)
                 (set_heap (heap w ++ [with_idx (u32 off) d]) w))).
Proof.
  intros Hio Hmu Hq Hwf d off. unfold appendDatum.
  erewrite bind_ok; [|reflexivity].
  erewrite bind_ok; [|reflexivity].
  rewrite (writeDatumToFile_quiet _ d); try done.
  - cbv zeta. cbn [heap set_heap]. 
    replace (alter (with_idx (u32 _)) (length (heap w)) (heap w ++ [d]))
      with (heap w ++ [with_idx (u32 off) d]).
    + reflexivity.
    + apply list_eq. intros i. rewrite list_lookup_alter.
      destruct (decide (length (heap w) = i)) as [<-|Hne].
      * rewrite !lookup_app_r, Nat.sub_diag by lia. reflexivity.
      * destruct (decide (i < length (heap w))%nat).
        -- by rewrite !lookup_app_l.
        -- rewrite !lookup_ge_None_2; [done|rewrite length_app; simpl; lia..].
  - cbn [heap set_heap]. rewrite lookup_app_r, Nat.sub_diag by lia. reflexivity.
Qed.

(** * The index as a map from keys to values *)

Lemma heap_synced s w : heap (synced s w) = heap w.
Proof. unfold synced. by destruct (decide _). Qed.

Lemma fs_synced s w : fs (synced s w) = fs w.
Proof. unfold synced. by destruct (decide _). Qed.

Lemma faults_synced s w : faults (synced s w) = faults w.
Proof. unfold synced. by destruct (decide _). Qed.

Lemma content_synced s w q : content (synced s w) q = content w q.
Proof. unfold content. by rewrite fs_synced. Qed.

Lemma Get_view key s w :
  Get key s w = match index_view s w !! key with
                | Some v => (v, true)
                | None => ([], false)
                end.
Proof.
  unfold Get, index_view. rewrite lookup_fmap. by destruct (data s !! key).
Qed.

Lemma d_value_Set key value : d_value (datum_Set newDatum key value) = value.
Proof.
  unfold datum_Set. simpl.
  destruct (decide (value = [])) as [->|]; simpl;
    destruct (decide (key = "")); reflexivity.
Qed.

Lemma d_key_Set key value : d_key (datum_Set newDatum key value) = key.
Proof.
  unfold datum_Set. simpl.
  destruct (decide (value = [])) as [->|]; simpl;
    destruct (decide (key = "")) as [->|]; reflexivity.
Qed.

Lemma deleted_Set key value : deleted (d_meta (datum_Set newDatum key value)) = x00.
Proof.
  unfold datum_Set. simpl.
  destruct (decide (value = [])) as [->|]; simpl;
    destruct (decide (key = "")) as [->|]; reflexivity.
Qed.

Lemma wf_Set key value : fits key value -> wf (datum_Set newDatum key value).
Proof.
  intros Hfit. unfold fits, metaSize in Hfit.
  pose proof (len_nonneg (list_byte_of_string key)).
  pose proof (len_nonneg value).
  unfold wf. rewrite d_key_Set, d_value_Set. split_and!; [| |done].
  - unfold datum_Set. simpl.
    destruct (decide (value = [])) as [->|]; simpl;
      destruct (decide (key = "")) as [->|]; simpl;
      rewrite ?u32_small by lia; reflexivity.
  - unfold datum_Set. simpl.
    destruct (decide (value = [])) as [->|]; simpl;
      destruct (decide (key = "")) as [->|]; simpl;
      rewrite ?u32_small by lia; reflexivity.
Qed.

Lemma view_ext (m : gmap string nat) w w' :
  (forall k p, m !! k = Some p -> d_value (deref w' p) = d_value (deref w p)) ->
  (fun p => d_value (deref w' p)) <$> m = (fun p => d_value (deref w p)) <$> m.
Proof.
  intros H. apply map_eq. intros k. rewrite !lookup_fmap.
  destruct (m !! k) as [p|] eqn:E; [|done]. simpl. f_equal. by eapply H.
Qed.

Lemma io_ok_after s0 pos s w path off b h :
  faults w = [] ->
  io_ok (after_write s0 pos) (synced s (do_write path off b (set_heap h w))).
Proof. intros H. split; [by rewrite faults_synced|reflexivity]. Qed.

Lemma alter_lookup_Some (f : datum -> datum) p (h : list datum) q d :
  h !! q = Some d ->
  alter f p h !! q = Some (if decide (p = q) then f d else d).
Proof.
  intros H. destruct (decide (p = q)) as [->|Hne].
  - by rewrite list_lookup_alter_eq, H.
  - by rewrite list_lookup_alter_ne.
Qed.

Lemma Set_light key value s w n :
  Light s w -> fits key value -> 0 <= n -> quota s (n + 2) ->
  exists s' w',
    Storage_Set key value s w = (Ok tt, s', w') /\
    Light s' w' /\ quota s' n /\ config s' = config s /\
    index_view s' w' = <[key := value]> (index_view s w).
Proof.
  intros [Hio Hmu Hptr] Hfit Hn Hq.
  pose proof (wf_Set key value Hfit) as Hwf.
  assert (Hq01 : quota s 1) by (apply (quota_mono s (n + 2)); [lia|done]).
  unfold Storage_Set. erewrite bind_ok; [|reflexivity].
  destruct (data s !! key) as [p|] eqn:Hk.
  - destruct (Hptr key p Hk) as (d & Hp & Hidx).
    erewrite bind_ok; [|apply wrap_ok, (reclaimSpace_quiet p d); done].
    set (s1 := after_write s _). set (w1 := synced s _).
    assert (Hio1 : io_ok s1 w1).
    { destruct Hio. split; [|done]. unfold w1. by rewrite faults_synced. }
    assert (Hq1 : quota s1 (n + 1)).
    { apply quota_after_write; [lia|]. by replace (n + 1 + 1) with (n + 2) by lia. }
    rewrite appendDatum_quiet; [|done|done|apply (quota_mono s1 (n + 1)); [lia|done]|done].
    cbv zeta. eexists _, _. split; [reflexivity|].
    assert (Hh1 : heap w1 = alter datum_MarkDeleted p (heap w)).
    { unfold w1. by rewrite heap_synced. }
    split_and!.
    + constructor.
      * apply io_ok_after. apply Hio1.
      * done.
      * intros k q Hkq. cbn [data after_write set_data] in Hkq.
        rewrite heap_synced. cbn [heap do_write set_heap set_fs log_event].
        destruct (decide (key = k)) as [->|Hne].
        -- rewrite lookup_insert_eq in Hkq. injection Hkq as <-.
           rewrite lookup_app_r, Nat.sub_diag by lia.
           eexists. split; [reflexivity|]. cbn [d_idx with_idx].
           apply u32_range.
        -- rewrite Hh1. rewrite lookup_insert_ne in Hkq by done.
           destruct (Hptr k q Hkq) as (dq & Hq' & Hiq).
           rewrite lookup_app_l by (rewrite length_alter; by eapply lookup_lt_Some).
           rewrite (alter_lookup_Some _ _ _ _ _ Hq'). eexists; split; [reflexivity|]. by destruct (decide (p = q)).
    + apply quota_after_write; [lia|]. exact Hq1.
    + reflexivity.
    + unfold index_view. cbn [data after_write set_data].
      rewrite fmap_insert. f_equal.
      * unfold deref. rewrite heap_synced. cbn [heap do_write set_heap set_fs log_event].
        rewrite lookup_app_r, Nat.sub_diag by lia.
        cbn [lookup list_lookup default d_value with_idx]. apply d_value_Set.
      * apply view_ext. intros k q Hkq.
        destruct (Hptr k q Hkq) as (dq & Hq' & Hiq).
        unfold deref. rewrite heap_synced. cbn [heap do_write set_heap set_fs log_event].
        rewrite Hh1. rewrite lookup_app_l by (rewrite length_alter; by eapply lookup_lt_Some).
        rewrite (alter_lookup_Some _ _ _ _ _ Hq'), Hq'. by destruct (decide (p = q)).
  - erewrite bind_ok; [|reflexivity].
    rewrite appendDatum_quiet; [|done|done|done|done].
    cbv zeta. eexists _, _. split; [reflexivity|].
    split_and!.
    + constructor.
      * apply io_ok_after. apply Hio.
      * done.
      * intros k q Hkq. cbn [data after_write set_data] in Hkq.
        rewrite heap_synced. cbn [heap do_write set_heap set_fs log_event].
        destruct (decide (key = k)) as [->|Hne].
        -- rewrite lookup_insert_eq in Hkq. injection Hkq as <-.
           rewrite lookup_app_r, Nat.sub_diag by lia.
           eexists. split; [reflexivity|]. cbn [d_idx with_idx].
           apply u32_range.
        -- rewrite lookup_insert_ne in Hkq by done.
           destruct (Hptr k q Hkq) as (dq & Hq' & Hiq).
           rewrite lookup_app_l by (by eapply lookup_lt_Some).
           eauto.
    + apply quota_after_write; [lia|]. apply (quota_mono _ (n + 2)); [lia|].
      destruct Hq as [?|?]; [by left|by right].
    + reflexivity.
    + unfold index_view. cbn [data after_write set_data].
      rewrite fmap_insert. f_equal.
      * unfold deref. rewrite heap_synced. cbn [heap do_write set_heap set_fs log_event].
        rewrite lookup_app_r, Nat.sub_diag by lia.
        cbn [lookup list_lookup default d_value with_idx]. apply d_value_Set.
      * apply view_ext. intros k q Hkq.
        destruct (Hptr k q Hkq) as (dq & Hq' & Hiq).
        unfold deref. rewrite heap_synced. cbn [heap do_write set_heap set_fs log_event].
        by rewrite lookup_app_l by (by eapply lookup_lt_Some).
Qed.

Lemma Delete_light key s w n :
  Light s w -> 0 <= n -> quota s (n + 2) ->
  exists s' w',
    Delete key s w = (Ok tt, s', w') /\
    Light s' w' /\ quota s' n /\ config s' = config s /\
    index_view s' w' = delete key (index_view s w).
Proof.
  intros [Hio Hmu Hptr] Hn Hq.
  unfold Delete. unfold bind, LoadAndDelete.
  destruct (data s !! key) as [p|] eqn:Hk.
  - destruct (Hptr key p Hk) as (d & Hp & Hidx).
    assert (Hio2 : io_ok (set_data (delete key (data s)) s) w)
      by (destruct Hio; split; done).
    assert (Hq2 : quota (set_data (delete key (data s)) s) 1)
      by (apply (quota_mono s (n + 2)); [lia|exact Hq]).
    erewrite wrap_ok; [|by apply (reclaimSpace_quiet p d)].
    eexists _, _. split; [reflexivity|].
    split_and!.
    + constructor.
      * apply io_ok_after. apply Hio.
      * done.
      * intros k q Hkq. cbn [data after_write set_data] in Hkq.
        rewrite heap_synced. cbn [heap do_write set_heap set_fs log_event].
        apply lookup_delete_Some in Hkq as [Hne Hkq].
        destruct (Hptr k q Hkq) as (dq & Hq' & Hiq).
        rewrite (alter_lookup_Some _ _ _ _ _ Hq'). eexists; split; [reflexivity|]. by destruct (decide (p = q)).
    + apply quota_after_write; [lia|]. apply (quota_mono _ (n + 2)); [lia|].
      destruct Hq as [?|?]; [by left|by right].
    + reflexivity.
    + unfold index_view. cbn [data after_write set_data].
      rewrite fmap_delete. f_equal.
      apply view_ext. intros k q Hkq.
      destruct (Hptr k q Hkq) as (dq & Hq' & Hiq).
      unfold deref. rewrite heap_synced. cbn [heap do_write set_heap set_fs log_event].
      rewrite (alter_lookup_Some _ _ _ _ _ Hq'), Hq'. by destruct (decide (p = q)).
  - eexists _, _. split; [reflexivity|]. split_and!.
    + by constructor.
    + apply (quota_mono _ (n + 2)); [lia|done].
    + done.
    + unfold index_view. rewrite delete_id; [done|]. by rewrite lookup_fmap, Hk.
Qed.

(** * Opening a store and running operations: the index *)

Lemma length_encode_pos d : (0 < length (encode d))%nat.
Proof. unfold encode. rewrite length_app, length_meta_Bytes. lia. Qed.

Lemma length_encode_log ds : (length ds <= length (encode_log ds))%nat.
Proof.
  induction ds as [|d ds IH]; simpl; [lia|].
  rewrite length_app. pose proof (length_encode_pos d). lia.
Qed.

(** Opening a file that holds the well-formed records [ds]. *)
Lemma NewStorage_log filename mode cfg w ds :
  faults w = [] -> fs w !! filename = Some (encode_log ds) -> Forall wf ds ->
  NewStorage filename mode cfg w =
    let r := load_pure ds ∅ (heap w) 0 in
    (Ok (mkStorage filename (mkFile filename (len (encode_log ds)) false) 0 0 false
           r.1.1 r.2 (default defaultConfig cfg)),
     set_heap r.1.2 w).
Proof.
  intros Hf Hfs Hwf. unfold NewStorage, os_OpenFile.
  rewrite pop_fault_nil by done. rewrite Hfs.
  assert (Hc : content w filename = encode_log ds) by (unfold content; by rewrite Hfs).
  rewrite Hc.
  rewrite (load_loop_log ds _ _ w []); try done.
  - pose proof (length_encode_log ds). lia.
Qed.

(** Opening a file that does not exist yet. *)
Lemma NewStorage_fresh filename mode cfg w :
  faults w = [] -> fs w !! filename = None ->
  NewStorage filename mode cfg w =
    (Ok (mkStorage filename (mkFile filename 0 false) 0 0 false ∅ 0
           (default defaultConfig cfg)),
     set_fs (<[filename := []]> (fs w)) w).
Proof.
  intros Hf Hfs. unfold NewStorage, os_OpenFile.
  rewrite pop_fault_nil by done. rewrite Hfs.
  set (w1 := set_fs _ w).
  assert (Hc : content w1 filename = []).
  { unfold content, w1. cbn [fs set_fs]. by rewrite lookup_insert_eq. }
  rewrite Hc.
  rewrite (load_loop_log [] _ _ w1 []); try done.
  simpl. lia.
Qed.

Lemma last_set_nil k v : ~ last_set [] k v.
Proof. intros (pre & post & E & _). by destruct pre. Qed.

Lemma last_set_snoc ops o k v :
  last_set (ops ++ [o]) k v <->
  (o = OpSet k v \/ (op_key o <> k /\ last_set ops k v)).
Proof.
  split.
  - intros (pre & post & E & Hpost).
    destruct post as [|x post _] using rev_ind.
    + apply app_inj_tail in E as [_ ->]. by left.
    + rewrite app_comm_cons, app_assoc in E. apply app_inj_tail in E as [-> ->].
      apply Forall_app in Hpost as [Hpost Hx]. inversion Hx; subst.
      right. split; [done|]. by exists pre, post.
  - intros [->|[Hne (pre & post & -> & Hpost)]].
    + exists ops, []. by split.
    + exists pre, (post ++ [o]). split.
      * by rewrite <- app_assoc.
      * apply Forall_app. split; [done|]. by constructor.
Qed.

Lemma model_lookup ops k v :
  foldl apply_op ∅ ops !! k = Some v <-> last_set ops k v.
Proof.
  induction ops as [|o ops IH] using rev_ind.
  - simpl. rewrite lookup_empty. split; [done|]. intros H. by apply last_set_nil in H.
  - rewrite foldl_app. simpl. rewrite last_set_snoc.
    destruct o as [k' v'|k']; simpl.
    + destruct (decide (k' = k)) as [->|Hne].
      * rewrite lookup_insert_eq. split.
        -- intros [= ->]. by left.
        -- intros [[= ->]|[? _]]; done.
      * rewrite lookup_insert_ne by done. rewrite IH. split.
        -- intros H. right. done.
        -- intros [[= -> ->]|[_ H]]; done.
    + destruct (decide (k' = k)) as [->|Hne].
      * rewrite lookup_delete_eq. split; [done|]. intros [|[? _]]; done.
      * rewrite lookup_delete_ne by done. rewrite IH. split.
        -- intros H. right. done.
        -- intros [|[_ H]]; done.
Qed.

Lemma run_ops_light ops : forall s w,
  Light s w -> Forall op_fits ops -> quota s (2 * len ops) ->
  exists s' w',
    run_ops ops s w = (Ok tt, s', w') /\ Light s' w' /\
    index_view s' w' = foldl apply_op (index_view s w) ops.
Proof.
  induction ops as [|o ops IH]; intros s w HL Hfit Hq.
  - exists s, w. by split.
  - inversion Hfit as [|? ? Ho Hops]; subst.
    assert (Hq' : quota s (2 * len ops + 2)).
    { replace (2 * len ops + 2) with (2 * len (o :: ops)); [done|]. unfold len. simpl length. lia. }
    assert (exists s1 w1, run_op o s w = (Ok tt, s1, w1) /\ Light s1 w1 /\
              quota s1 (2 * len ops) /\ index_view s1 w1 = apply_op (index_view s w) o)
      as (s1 & w1 & Hrun & HL1 & Hq1 & Hv1).
    { destruct o as [k v|k]; simpl.
      - destruct (Set_light k v s w (2 * len ops) HL Ho) as (s1 & w1 & ? & ? & ? & ? & ?);
          [unfold len; lia|done|]. by exists s1, w1.
      - destruct (Delete_light k s w (2 * len ops) HL) as (s1 & w1 & ? & ? & ? & ? & ?);
          [unfold len; lia|done|]. by exists s1, w1. }
    destruct (IH s1 w1 HL1 Hops Hq1) as (s' & w' & Hrun' & HL' & Hv').
    exists s', w'. split_and!; [|done|].
    + cbn [run_ops]. erewrite bind_ok; [|exact Hrun]. exact Hrun'.
    + simpl. by rewrite Hv', Hv1.
Qed.

(** * The file as a log of records: offsets and tombstones *)

Lemma len_encode_log_app a b :
  len (encode_log (a ++ b)) = len (encode_log a) + len (encode_log b).
Proof. by rewrite encode_log_app, len_app. Qed.

Lemma len_encode_log_cons d b :
  len (encode_log (d :: b)) = len (encode d) + len (encode_log b).
Proof. cbn [encode_log]. by rewrite len_app. Qed.

Lemma len_encode_ge d : 9 <= len (encode d).
Proof.
  rewrite len_encode. pose proof (len_nonneg (list_byte_of_string (d_key d))).
  pose proof (len_nonneg (d_value d)). lia.
Qed.

Lemma offsets_ok_app base a b :
  offsets_ok base (a ++ b) <->
  offsets_ok base a /\ offsets_ok (base + len (encode_log a)) b.
Proof.
  revert base. induction a as [|d a IH]; intros base.
  - cbn [app offsets_ok encode_log]. change (len []) with 0. rewrite Z.add_0_r. tauto.
  - cbn [app offsets_ok]. rewrite IH, len_encode_log_cons.
    replace (base + len (encode d) + len (encode_log a))
      with (base + (len (encode d) + len (encode_log a))) by lia. tauto.
Qed.

Lemma offsets_ok_bounds ds : forall base d,
  offsets_ok base ds -> d ∈ ds ->
  base <= d_idx d /\ d_idx d + len (encode d) <= base + len (encode_log ds).
Proof.
  induction ds as [|x ds IH]; intros base d Hok Hin.
  - by apply elem_of_nil in Hin.
  - destruct Hok as [Hx Hok]. rewrite len_encode_log_cons.
    pose proof (len_nonneg (encode_log ds)). pose proof (len_encode_ge x).
    apply elem_of_cons in Hin as [->|Hin].
    + lia.
    + destruct (IH _ _ Hok Hin). lia.
Qed.

Lemma offsets_ok_split base a d b :
  offsets_ok base (a ++ d :: b) ->
  d_idx d = base + len (encode_log a) /\ (d ∉ a) /\ (d ∉ b).
Proof.
  intros Hok. apply offsets_ok_app in Hok as [Ha [Hd Hb]].
  split; [done|]. pose proof (len_encode_ge d). split; intros Hin.
  - destruct (offsets_ok_bounds _ _ _ Ha Hin). lia.
  - destruct (offsets_ok_bounds _ _ _ Hb Hin). lia.
Qed.

Lemma encode_MarkDeleted_len d : len (encode (datum_MarkDeleted d)) = len (encode d).
Proof. by rewrite !len_encode. Qed.

Lemma wf_MarkDeleted d : wf d -> wf (datum_MarkDeleted d).
Proof. done. Qed.

(** Writing the tombstone byte of the record [d] of a log. *)
Lemma write_tombstone a d b :
  write_at (encode_log (a ++ d :: b)) (Z.to_nat (len (encode_log a) + 8)) [x01]
  = encode_log (a ++ datum_MarkDeleted d :: b).
Proof.
  rewrite !encode_log_app. cbn [encode_log]. unfold encode, meta_Bytes.
  cbn [datum_MarkDeleted with_meta d_meta d_key d_value keySize valSize deleted].
  set (hd := encode_log a ++ PutUint32 (keySize (d_meta d)) ++ PutUint32 (valSize (d_meta d))).
  set (tl := (list_byte_of_string (d_key d) ++ d_value d) ++ encode_log b).
  replace (Z.to_nat (len (encode_log a) + 8)) with (length hd).
  2:{ unfold hd, len. rewrite !length_app, !length_PutUint32. lia. }
  transitivity (hd ++ [x01] ++ tl).
  - rewrite <- (write_at_mid hd [deleted (d_meta d)] tl [x01]) by done.
    f_equal. unfold hd, tl. by rewrite <- !app_assoc.
  - unfold hd, tl. by rewrite <- !app_assoc.
Qed.

Lemma tombstone_id k ds :
  (forall d, d ∈ ds -> deleted (d_meta d) <> x01 -> d_key d <> k) ->
  tombstone k ds = ds.
Proof.
  intros H. unfold tombstone. induction ds as [|d ds IH]; [done|].
  rewrite fmap_cons. rewrite IH.
  - destruct (decide _) as [[Hk Hl]|]; [|done].
    exfalso. eapply H; [|done..]. by left.
  - intros e He. apply H. by right.
Qed.

Lemma tombstone_split k a d b :
  d_key d = k -> deleted (d_meta d) <> x01 ->
  (forall e, e ∈ a ++ b -> deleted (d_meta e) <> x01 -> d_key e <> k) ->
  tombstone k (a ++ d :: b) = a ++ datum_MarkDeleted d :: b.
Proof.
  intros Hk Hl H.
  assert (Ha : tombstone k a = a).
  { apply tombstone_id. intros e He. apply H. apply elem_of_app. by left. }
  assert (Hb : tombstone k b = b).
  { apply tombstone_id. intros e He. apply H. apply elem_of_app. by right. }
  unfold tombstone in *. rewrite fmap_app, fmap_cons, Ha, Hb.
  destruct (decide _) as [|Hn]; [done|]. exfalso. by apply Hn.
Qed.

Lemma Inv'_content m path w ds : Inv' m path w ds -> content w path = encode_log ds.
Proof. intros H. unfold content. by rewrite (v_file _ _ _ _ H). Qed.

Lemma Inv'_no_live m path w ds k :
  Inv' m path w ds -> m !! k = None ->
  forall d, d ∈ ds -> deleted (d_meta d) <> x01 -> d_key d <> k.
Proof.
  intros H Hk d Hd Hl <-. destruct (v_live _ _ _ _ H d Hd Hl) as (p & Hp & _).
  congruence.
Qed.

Lemma Inv'_tomb m path w ds k p d :
  Inv' m path w ds -> m !! k = Some p -> heap w !! p = Some d ->
  Inv' (delete k m) path
    (do_write path (d_idx d + 8) [x01]
       (set_heap (alter datum_MarkDeleted p (heap w)) w))
    (tombstone k ds) /\
  0 <= d_idx d /\ d_idx d + 9 <= len (encode_log ds).
Proof.
  intros H Hk Hp.
  destruct (v_idx _ _ _ _ H k p Hk) as (d' & Hp' & Hin & Hkey & Hl).
  rewrite Hp in Hp'. injection Hp' as <-.
  apply list_elem_of_split in Hin as (a & b & ->).
  destruct (offsets_ok_split _ _ _ _ (v_off _ _ _ _ H)) as (Hoff & Hna & Hnb).
  rewrite Z.add_0_l in Hoff.
  assert (Huniq : forall e, e ∈ a ++ b -> deleted (d_meta e) <> x01 -> d_key e <> k).
  { intros e He Hle Hke.
    assert (He' : e ∈ a ++ d :: b).
    { apply elem_of_app in He as [?|?]; apply elem_of_app; [by left|right; by right]. }
    destruct (v_live _ _ _ _ H e He' Hle) as (q & Hq & Hhq).
    rewrite Hke, Hk in Hq. injection Hq as <-. rewrite Hp in Hhq. injection Hhq as ->.
    apply elem_of_app in He as [?|?]; done. }
  rewrite (tombstone_split k a d b Hkey Hl Huniq).
  split; [|split].
  2:{ pose proof (len_nonneg (encode_log a)). lia. }
  2:{ rewrite len_encode_log_app, len_encode_log_cons.
      pose proof (len_encode_ge d). pose proof (len_nonneg (encode_log b)). lia. }
  constructor.
  - unfold do_write. cbn [fs set_fs log_event set_heap]. rewrite lookup_insert_eq.
    f_equal. unfold content. cbn [fs set_heap]. rewrite (v_file _ _ _ _ H). cbn [default].
    rewrite Hoff. apply write_tombstone.
  - pose proof (v_wf _ _ _ _ H) as Hwf.
    apply Forall_app in Hwf as [Hwa Hwb]. inversion Hwb; subst.
    apply Forall_app. split; [done|]. constructor; [|done]. by apply wf_MarkDeleted.
  - pose proof (v_size _ _ _ _ H) as Hs.
    rewrite len_encode_log_app, len_encode_log_cons in *.
    by rewrite encode_MarkDeleted_len.
  - pose proof (v_off _ _ _ _ H) as Ho.
    apply offsets_ok_app in Ho as [Hoa [Hod Hob]].
    apply offsets_ok_app. split; [done|]. split; [done|].
    by rewrite encode_MarkDeleted_len.
  - pose proof (v_del _ _ _ _ H) as Hdl.
    apply Forall_app in Hdl as [Hda Hdb]. inversion Hdb; subst.
    apply Forall_app. split; [done|]. constructor; [|done]. by right.
  - intros k' q Hq. apply lookup_delete_Some in Hq as [Hne Hq].
    destruct (v_idx _ _ _ _ H k' q Hq) as (e & Hhq & He & Hke & Hle).
    assert (Hpq : p <> q).
    { intros ->. rewrite Hp in Hhq. injection Hhq as ->. congruence. }
    exists e. cbn [heap do_write set_heap set_fs log_event].
    rewrite list_lookup_alter_ne by done. split_and!; try done.
    apply elem_of_app in He as [?|He]; apply elem_of_app; [by left|].
    apply elem_of_cons in He as [->|?]; [congruence|]. right. by right.
  - intros e He Hle.
    assert (He' : e ∈ a ++ b).
    { apply elem_of_app in He as [?|He]; apply elem_of_app; [by left|].
      apply elem_of_cons in He as [->|?]; [|by right].
      exfalso. by apply Hle. }
    assert (He'' : e ∈ a ++ d :: b).
    { apply elem_of_app in He' as [?|?]; apply elem_of_app; [by left|right; by right]. }
    destruct (v_live _ _ _ _ H e He'' Hle) as (q & Hq & Hhq).
    exists q. split.
    + rewrite lookup_delete_ne; [done|]. intros E. by apply (Huniq e He' Hle).
    + cbn [heap do_write set_heap set_fs log_event].
      rewrite list_lookup_alter_ne; [done|].
      intros ->. rewrite Hp in Hhq. injection Hhq as ->.
      apply elem_of_app in He' as [?|?]; done.
Qed.

Lemma Inv'_append m path w ds k dn :
  Inv' m path w ds -> m !! k = None ->
  wf dn -> d_key dn = k -> deleted (d_meta dn) = x00 ->
  len (encode_log ds) + len (encode dn) < 4294967296 ->
  let off := len (encode_log ds) in
  Inv' (<[k := length (heap w)]> m) path
    (do_write path off (encode dn)
       (set_heap (heap w ++ [with_idx (u32 off) dn]) w))
    (ds ++ [with_idx off dn]).
Proof.
  intros H Hk Hwf Hkey Hl0 Hsz off.
  assert (Hl : deleted (d_meta dn) <> x01) by (by rewrite Hl0).
  pose proof (len_nonneg (encode_log ds)) as Hnn.
  pose proof (len_encode_ge dn) as Hge.
  assert (Hu : u32 off = off) by (apply u32_small; unfold off; lia).
  rewrite Hu.
  assert (Hlen : len (encode_log (ds ++ [with_idx off dn])) = off + len (encode dn)).
  { rewrite len_encode_log_app. cbn [encode_log]. rewrite app_nil_r. reflexivity. }
  constructor.
  - unfold do_write. cbn [fs set_fs log_event set_heap]. rewrite lookup_insert_eq.
    f_equal. unfold content. cbn [fs set_heap]. rewrite (v_file _ _ _ _ H). cbn [default].
    replace (Z.to_nat off) with (length (encode_log ds)) by (unfold off, len; lia).
    rewrite write_at_end, encode_log_app. cbn [encode_log]. by rewrite app_nil_r.
  - apply Forall_app. split; [apply (v_wf _ _ _ _ H)|]. by constructor.
  - rewrite Hlen. unfold off. lia.
  - apply offsets_ok_app. split; [apply (v_off _ _ _ _ H)|].
    cbn [offsets_ok]. split; [|done]. cbn [d_idx with_idx]. unfold off. lia.
  - apply Forall_app. split; [apply (v_del _ _ _ _ H)|]. constructor; [|done]. by left.
  - intros k' q Hq. cbn [heap do_write set_heap set_fs log_event].
    destruct (decide (k = k')) as [<-|Hne].
    + rewrite lookup_insert_eq in Hq. injection Hq as <-.
      rewrite lookup_app_r, Nat.sub_diag by lia.
      eexists. split; [reflexivity|]. split_and!; try done.
      apply elem_of_app. right. by left.
    + rewrite lookup_insert_ne in Hq by done.
      destruct (v_idx _ _ _ _ H k' q Hq) as (e & Hhq & He & Hke & Hle).
      exists e. rewrite lookup_app_l by (by eapply lookup_lt_Some).
      split_and!; try done. apply elem_of_app. by left.
  - intros e He Hle. cbn [heap do_write set_heap set_fs log_event].
    apply elem_of_app in He as [He|He].
    + destruct (v_live _ _ _ _ H e He Hle) as (q & Hq & Hhq).
      exists q. split.
      * rewrite lookup_insert_ne; [done|]. intros E. rewrite <- E, Hk in Hq. done.
      * rewrite lookup_app_l by (by eapply lookup_lt_Some). done.
    + apply list_elem_of_singleton in He as ->.
      exists (length (heap w)). cbn [d_key with_idx]. rewrite Hkey. split.
      * by rewrite lookup_insert_eq.
      * by rewrite lookup_app_r, Nat.sub_diag by lia.
Qed.

Lemma Inv'_synced m path s w ds : Inv' m path w ds -> Inv' m path (synced s w) ds.
Proof.
  intros [? ? ? ? ? ? ?]. constructor; try done.
  - by rewrite fs_synced.
  - intros k p Hk. rewrite heap_synced. eauto.
  - intros d Hd Hl. rewrite heap_synced. eauto.
Qed.

Lemma Inv_Light s w ds : Inv s w ds -> Light s w.
Proof.
  intros [Hio Hmu HI]. constructor; [done..|].
  intros k p Hk. destruct (v_idx _ _ _ _ HI k p Hk) as (d & Hp & Hin & _).
  exists d. split; [done|].
  by destruct (offsets_ok_bounds _ _ _ (v_off _ _ _ _ HI) Hin).
Qed.

Lemma len_tombstone k ds : len (encode_log (tombstone k ds)) = len (encode_log ds).
Proof.
  unfold tombstone. induction ds as [|d ds IH]; [done|].
  rewrite fmap_cons, !len_encode_log_cons, IH.
  destruct (decide _); [by rewrite encode_MarkDeleted_len|done].
Qed.

Lemma len_log_after ds o :
  len (encode_log (log_after ds o)) = len (encode_log ds) + op_size o.
Proof.
  destruct o as [k v|k]; cbn [log_after op_size].
  - rewrite len_encode_log_app, len_tombstone. cbn [encode_log]. rewrite app_nil_r.
    change (encode (with_idx _ ?d)) with (encode d).
    rewrite len_encode, d_key_Set, d_value_Set. unfold metaSize. lia.
  - rewrite len_tombstone. lia.
Qed.

Lemma Delete_inv key s w ds n :
  Inv s w ds -> 0 <= n -> quota s (n + 2) ->
  exists s' w',
    Delete key s w = (Ok tt, s', w') /\ Inv s' w' (log_after ds (OpDelete key)) /\
    quota s' n /\ f_path (file s') = f_path (file s) /\ config s' = config s.
Proof.
  intros HI Hn Hq. pose proof HI as [Hio Hmu HI'].
  unfold Delete. unfold bind, LoadAndDelete. cbn [log_after].
  destruct (data s !! key) as [p|] eqn:Hk.
  - destruct (v_idx _ _ _ _ HI' key p Hk) as (d & Hp & Hin & _).
    destruct (Inv'_tomb _ _ _ _ _ _ _ HI' Hk Hp) as (HT & Hge & _).
    assert (Hio2 : io_ok (set_data (delete key (data s)) s) w)
      by (destruct Hio; split; done).
    assert (Hq2 : quota (set_data (delete key (data s)) s) 1)
      by (apply (quota_mono s (n + 2)); [lia|exact Hq]).
    erewrite wrap_ok; [|by apply (reclaimSpace_quiet p d)].
    eexists _, _. split; [reflexivity|]. split_and!.
    + constructor.
      * apply io_ok_after. apply Hio.
      * done.
      * apply Inv'_synced. exact HT.
    + apply quota_after_write; [lia|]. apply (quota_mono _ (n + 2)); [lia|].
      destruct Hq as [?|?]; [by left|by right].
    + done.
    + done.
  - eexists _, _. split; [reflexivity|]. split_and!; try done.
    + rewrite tombstone_id; [done|]. by eapply Inv'_no_live.
    + apply (quota_mono _ (n + 2)); [lia|done].
Qed.

Lemma Set_inv key value s w ds n :
  Inv s w ds -> fits key value ->
  len (encode_log ds) + op_size (OpSet key value) < 4294967296 ->
  0 <= n -> quota s (n + 2) ->
  exists s' w',
    Storage_Set key value s w = (Ok tt, s', w') /\
    Inv s' w' (log_after ds (OpSet key value)) /\
    quota s' n /\ f_path (file s') = f_path (file s) /\ config s' = config s.
Proof.
  intros HI Hfit Hsz Hn Hq. pose proof HI as [Hio Hmu HI'].
  pose proof (wf_Set key value Hfit) as Hwf.
  assert (Hq01 : quota s 1) by (apply (quota_mono s (n + 2)); [lia|done]).
  set (dn := datum_Set newDatum key value) in *.
  assert (Hdn : len (encode dn) = op_size (OpSet key value)).
  { unfold dn. cbn [op_size]. rewrite len_encode, d_key_Set, d_value_Set. unfold metaSize. lia. }
  assert (Hkdn : d_key dn = key) by apply d_key_Set.
  assert (Hldn : deleted (d_meta dn) = x00) by apply deleted_Set.
  unfold Storage_Set. erewrite bind_ok; [|reflexivity]. cbn [log_after]. fold dn.
  destruct (data s !! key) as [p|] eqn:Hk.
  - destruct (v_idx _ _ _ _ HI' key p Hk) as (d & Hp & Hin & _).
    destruct (Inv'_tomb _ _ _ _ _ _ _ HI' Hk Hp) as (HT & Hge & _).
    erewrite bind_ok; [|apply wrap_ok, (reclaimSpace_quiet p d); done].
    set (s1 := after_write s _). set (w0 := do_write _ _ _ _) in *. set (w1 := synced s _).
    assert (Hio1 : io_ok s1 w1) by (apply io_ok_after, Hio).
    assert (Hq1 : quota s1 (n + 1)).
    { apply quota_after_write; [lia|]. by replace (n + 1 + 1) with (n + 2) by lia. }
    rewrite appendDatum_quiet; [|done|done|apply (quota_mono s1 (n + 1)); [lia|done]|done].
    cbv zeta. fold dn. eexists _, _. split; [reflexivity|].
    assert (HT1 : Inv' (delete key (data s)) (f_path (file s)) w1 (tombstone key ds))
      by (apply Inv'_synced, HT).
    assert (Hc1 : content w1 (f_path (file s1)) = encode_log (tombstone key ds))
      by (apply (Inv'_content _ _ _ _ HT1)).
    rewrite Hc1, len_tombstone.
    split_and!.
    + constructor.
      * apply io_ok_after, Hio1.
      * done.
      * apply Inv'_synced. cbn [data after_write set_data f_path file].
        replace (<[key:=length (heap w1)]> (data s))
          with (<[key:=length (heap w1)]> (delete key (data s)))
          by (apply insert_delete_eq).
        rewrite <- (len_tombstone key ds).
        apply Inv'_append; try done.
        -- by rewrite lookup_delete_eq.
        -- rewrite len_tombstone. lia.
    + apply quota_after_write; [lia|]. exact Hq1.
    + done.
    + done.
  - erewrite bind_ok; [|reflexivity].
    rewrite appendDatum_quiet; [|done|done|done|done].
    cbv zeta. fold dn. eexists _, _. split; [reflexivity|].
    rewrite (Inv'_content _ _ _ _ HI').
    rewrite tombstone_id by (by eapply Inv'_no_live).
    split_and!.
    + constructor.
      * apply io_ok_after, Hio.
      * done.
      * apply Inv'_synced. cbn [data after_write set_data f_path file].
        apply Inv'_append; try done. lia.
    + apply quota_after_write; [lia|]. apply (quota_mono _ (n + 2)); [lia|].
      destruct Hq as [?|?]; [by left|by right].
    + done.
    + done.
Qed.

(** * Replaying a log *)

Lemma index_view_of s w : index_view s w = view_of (data s) (heap w).
Proof. reflexivity. Qed.

Lemma view_of_app m h h' :
  (forall k p, m !! k = Some p -> (p < length h)%nat) ->
  view_of m (h ++ h') = view_of m h.
Proof.
  intros H. apply map_eq. intros k. unfold view_of. rewrite !lookup_fmap.
  destruct (m !! k) as [p|] eqn:E; [|done]. simpl.
  by rewrite lookup_app_l by (by eapply H).
Qed.

Lemma view_load_pure ds : forall m h ix,
  (forall k p, m !! k = Some p -> (p < length h)%nat) ->
  view_of (load_pure ds m h ix).1.1 (load_pure ds m h ix).1.2
  = foldl replay_step (view_of m h) ds.
Proof.
  induction ds as [|d ds IH]; intros m h ix Hv; [done|].
  cbn [load_pure foldl]. unfold replay_step at 2.
  destruct (decide (deleted (d_meta d) = x01)) as [Hd|Hl].
  - by apply IH.
  - rewrite IH.
    + f_equal. unfold view_of at 1. rewrite fmap_insert. f_equal.
      * by rewrite lookup_app_r, Nat.sub_diag by lia.
      * by apply view_of_app.
    + intros k p Hk. rewrite length_app. simpl.
      destruct (decide (d_key d = k)) as [<-|Hne].
      * rewrite lookup_insert_eq in Hk. injection Hk as <-. lia.
      * rewrite lookup_insert_ne in Hk by done. specialize (Hv _ _ Hk). lia.
Qed.

Lemma replay_None ds k : forall acc,
  (forall e, e ∈ ds -> deleted (d_meta e) <> x01 -> d_key e <> k) ->
  foldl replay_step acc ds !! k = acc !! k.
Proof.
  induction ds as [|d ds IH]; intros acc H; [done|].
  cbn [foldl]. rewrite IH by (intros e He; apply H; by right).
  unfold replay_step. destruct (decide _); [done|].
  rewrite lookup_insert_ne; [done|]. apply H; [by left|done].
Qed.

Lemma replay_Some ds d : forall acc,
  d ∈ ds -> deleted (d_meta d) <> x01 ->
  (forall e, e ∈ ds -> deleted (d_meta e) <> x01 -> d_key e = d_key d ->
             d_value e = d_value d) ->
  foldl replay_step acc ds !! d_key d = Some (d_value d).
Proof.
  induction ds as [|x ds IH] using rev_ind; intros acc Hin Hl Hu.
  - by apply elem_of_nil in Hin.
  - rewrite foldl_app. cbn [foldl]. unfold replay_step at 1.
    assert (Hu' : forall e, e ∈ ds -> deleted (d_meta e) <> x01 ->
                    d_key e = d_key d -> d_value e = d_value d).
    { intros e He. apply Hu. apply elem_of_app. by left. }
    assert (Hx : x ∈ ds ++ [x]) by (apply elem_of_app; right; by left).
    destruct (decide (deleted (d_meta x) = x01)) as [Hdx|Hlx].
    + apply IH; [|done..]. apply elem_of_app in Hin as [?|Hin]; [done|].
      apply list_elem_of_singleton in Hin as ->. done.
    + destruct (decide (d_key x = d_key d)) as [E|Hne].
      * rewrite E, lookup_insert_eq. f_equal. by apply Hu.
      * rewrite lookup_insert_ne by done. apply IH; [|done..].
        apply elem_of_app in Hin as [?|Hin]; [done|].
        apply list_elem_of_singleton in Hin as ->. done.
Qed.

(** Under the invariant the index is what a scan of the log would build. *)
Lemma Inv'_view m path w ds : Inv' m path w ds -> view_of m (heap w) = replay ds.
Proof.
  intros H. apply map_eq. intros k. unfold view_of. rewrite lookup_fmap.
  destruct (m !! k) as [p|] eqn:Hk.
  - destruct (v_idx _ _ _ _ H k p Hk) as (d & Hp & Hin & Hkey & Hl).
    simpl. rewrite Hp. simpl. symmetry. rewrite <- Hkey.
    apply replay_Some; try done.
    intros e He Hle Hke.
    destruct (v_live _ _ _ _ H e He Hle) as (q & Hq & Hhq).
    rewrite Hke, Hkey, Hk in Hq. injection Hq as <-. congruence.
  - simpl. symmetry. unfold replay. rewrite replay_None; [done|].
    by eapply Inv'_no_live.
Qed.

Lemma Close_quiet s w :
  io_ok s w -> muFile s = false ->
  Close s w =
    (Ok tt,
     mkStorage (name s) (mkFile (f_path (file s)) (f_pos (file s)) true)
       (writeCountSync s) (writeCountVacuum s) false (data s) (idx s) (config s),
     log_event (EvSync (f_path (file s))) w).
Proof.
  intros Hio Hmu. pose proof Hio as [Hf Hc]. unfold Close, locked. rewrite Hmu.
  erewrite bind_ok; [|apply wrap_ok, file_Sync_quiet; split; [done|exact Hc]].
  unfold wrap, file_Close. sto. rewrite Hc.
  rewrite pop_fault_nil by done. reflexivity.
Qed.

(** Opening a file that holds a well-formed log. *)
Lemma NewStorage_view filename mode cfg w ds :
  faults w = [] -> fs w !! filename = Some (encode_log ds) -> Forall wf ds ->
  exists s' w',
    NewStorage filename mode cfg w = (Ok s', w') /\
    index_view s' w' = replay ds /\
    fs w' = fs w /\ faults w' = [] /\ trace w' = trace w /\
    f_closed (file s') = false /\ muFile s' = false /\
    f_pos (file s') = len (encode_log ds) /\
    writeCountSync s' = 0 /\ writeCountVacuum s' = 0.
Proof.
  intros Hf Hfs Hwf. rewrite (NewStorage_log _ _ _ _ ds) by done.
  cbv zeta. eexists _, _. split; [reflexivity|]. split_and!; try done.
  rewrite index_view_of. cbn [data heap set_heap].
  rewrite view_load_pure; [done|]. intros k p Hk. by rewrite lookup_empty in Hk.
Qed.

(** * Opening a store and running operations: the file *)

Lemma live_keys_app a b : live_keys (a ++ b) = live_keys a ++ live_keys b.
Proof. unfold live_keys. by rewrite filter_app, fmap_app. Qed.

Lemma live_keys_elem d ds :
  d ∈ ds -> deleted (d_meta d) <> x01 -> d_key d ∈ live_keys ds.
Proof.
  intros Hin Hl. unfold live_keys. apply list_elem_of_fmap. exists d. split; [done|].
  by apply list_elem_of_filter.
Qed.

Lemma with_idx_same d : with_idx (d_idx d) d = d.
Proof. by destruct d. Qed.

Lemma PI_load rest : forall pre m h,
  Forall wf (pre ++ rest) -> offsets_ok 0 (pre ++ rest) ->
  NoDup (live_keys (pre ++ rest)) ->
  len (encode_log (pre ++ rest)) < 4294967296 ->
  PI pre m h ->
  PI (pre ++ rest) (load_pure rest m h (len (encode_log pre))).1.1
                   (load_pure rest m h (len (encode_log pre))).1.2.
Proof.
  induction rest as [|d rest IH]; intros pre m h Hwf Hoff Hnd Hsz HPI.
  - rewrite app_nil_r. exact HPI.
  - cbn [load_pure].
    assert (Hwd : wf d).
    { apply Forall_app in Hwf as [_ Hw]. by inversion Hw. }
    assert (Hix : u32 (len (encode_log pre) + datum_Size d) = len (encode_log (pre ++ [d]))).
    { rewrite len_encode_log_app. cbn [encode_log]. rewrite app_nil_r.
      rewrite (wf_Size d Hwd). apply u32_small.
      rewrite len_encode_log_app, len_encode_log_cons in Hsz.
      pose proof (len_nonneg (encode_log pre)). pose proof (len_nonneg (encode_log rest)).
      pose proof (len_encode_ge d). lia. }
    rewrite Hix.
    assert (Hdi : d_idx d = len (encode_log pre)).
    { destruct (offsets_ok_split _ _ _ _ Hoff) as [E _]. lia. }
    replace (pre ++ d :: rest) with ((pre ++ [d]) ++ rest) in * by (by rewrite <- app_assoc).
    destruct (decide (deleted (d_meta d) = x01)) as [Hd|Hl].
    + apply IH; try done. destruct HPI as [H1 H2]. split.
      * intros k p Hk. destruct (H1 k p Hk) as (e & ? & ? & ? & ?).
        exists e. split_and!; try done. apply elem_of_app. by left.
      * intros e He Hle. apply elem_of_app in He as [He|He]; [by apply H2|].
        apply list_elem_of_singleton in He as ->. done.
    + apply IH; try done. destruct HPI as [H1 H2].
      rewrite <- Hdi, with_idx_same. split.
      * intros k p Hk. destruct (decide (d_key d = k)) as [<-|Hne].
        -- rewrite lookup_insert_eq in Hk. injection Hk as <-.
           exists d. rewrite lookup_app_r, Nat.sub_diag by lia.
           split_and!; try done. apply elem_of_app. right. by left.
        -- rewrite lookup_insert_ne in Hk by done.
           destruct (H1 k p Hk) as (e & Hp & ? & ? & ?).
           exists e. rewrite lookup_app_l by (by eapply lookup_lt_Some).
           split_and!; try done. apply elem_of_app. by left.
      * intros e He Hle. apply elem_of_app in He as [He|He].
        -- destruct (H2 e He Hle) as (p & Hp & Hhp).
           exists p. rewrite lookup_app_l by (by eapply lookup_lt_Some).
           split; [|done]. rewrite lookup_insert_ne; [done|].
           intros E. rewrite !live_keys_app in Hnd.
           apply NoDup_app in Hnd as [Hnd _]. apply NoDup_app in Hnd as (_ & Hnd & _).
           apply (Hnd (d_key e)); [by apply live_keys_elem|].
           rewrite <- E. apply live_keys_elem; [by left|done].
        -- apply list_elem_of_singleton in He as ->.
           exists (length h). rewrite lookup_insert_eq.
           by rewrite lookup_app_r, Nat.sub_diag by lia.
Qed.

Lemma encode_log_nil_inv ds : encode_log ds = [] -> ds = [].
Proof.
  destruct ds as [|d ds]; [done|]. cbn [encode_log]. intros E.
  apply (f_equal length) in E. rewrite length_app in E.
  pose proof (length_encode_pos d). simpl in E. lia.
Qed.

(** Opening a clean log establishes the invariant. *)
Lemma NewStorage_inv filename mode cfg w ds :
  faults w = [] -> content w filename = encode_log ds -> clean ds ->
  exists s' w',
    NewStorage filename mode cfg w = (Ok s', w') /\ Inv s' w' ds /\
    f_path (file s') = filename /\ config s' = default defaultConfig cfg /\
    writeCountVacuum s' = 0 /\
    (forall q, q <> filename -> fs w' !! q = fs w !! q).
Proof.
  intros Hf Hc [Hwf Hoff Hdl Hnd Hsz].
  assert (HPI : PI ds (load_pure ds ∅ (heap w) 0).1.1 (load_pure ds ∅ (heap w) 0).1.2).
  { apply (PI_load ds [] ∅ (heap w)); try done. split.
    - intros k p Hk. by rewrite lookup_empty in Hk.
    - intros d Hd. by apply elem_of_nil in Hd. }
  destruct HPI as [H1 H2].
  destruct (fs w !! filename) as [c|] eqn:Hfs.
  - assert (c = encode_log ds) as -> by (unfold content in Hc; by rewrite Hfs in Hc).
    rewrite (NewStorage_log _ _ _ _ ds) by done. cbv zeta.
    eexists _, _. split; [reflexivity|]. split_and!; done.
  - assert (ds = []) as ->.
    { apply encode_log_nil_inv. unfold content in Hc. by rewrite Hfs in Hc. }
    rewrite NewStorage_fresh by done.
    eexists _, _. split; [reflexivity|]. split_and!; try done.
    + constructor; [done|done|]. cbn [data file f_path].
      constructor; try done.
      cbn [fs set_fs]. by rewrite lookup_insert_eq.
    + intros q Hq. cbn [fs set_fs]. by rewrite lookup_insert_ne.
Qed.

Lemma op_size_nonneg o : 0 <= op_size o.
Proof.
  destruct o as [k v|k]; cbn [op_size]; [|lia].
  pose proof (len_nonneg (list_byte_of_string k)). pose proof (len_nonneg v).
  unfold metaSize. lia.
Qed.

Lemma ops_size_nonneg ops : 0 <= ops_size ops.
Proof. induction ops as [|o ops IH]; cbn [ops_size]; [lia|]. pose proof (op_size_nonneg o). lia. Qed.

Lemma op_fits_of_size o : op_size o < 4294967296 -> op_fits o.
Proof. destruct o; [|done]. done. Qed.

Lemma run_op_inv o s w ds n :
  Inv s w ds -> len (encode_log ds) + op_size o < 4294967296 ->
  0 <= n -> quota s (n + 2) ->
  exists s' w',
    run_op o s w = (Ok tt, s', w') /\ Inv s' w' (log_after ds o) /\
    quota s' n /\ f_path (file s') = f_path (file s) /\ config s' = config s.
Proof.
  intros HI Hsz Hn Hq. destruct o as [k v|k]; cbn [run_op].
  - apply Set_inv; try done. pose proof (len_nonneg (encode_log ds)).
    unfold fits. cbn [op_size] in Hsz. lia.
  - by apply Delete_inv.
Qed.

Lemma run_ops_inv ops : forall s w ds n,
  Inv s w ds -> len (encode_log ds) + ops_size ops < 4294967296 ->
  0 <= n -> quota s (2 * len ops + n) ->
  exists s' w',
    run_ops ops s w = (Ok tt, s', w') /\ Inv s' w' (foldl log_after ds ops) /\
    quota s' n /\ f_path (file s') = f_path (file s) /\ config s' = config s.
Proof.
  induction ops as [|o ops IH]; intros s w ds n HI Hsz Hn Hq.
  - exists s, w. change (len (@nil op)) with 0 in Hq.
    rewrite Z.mul_0_r, Z.add_0_l in Hq. by split_and!.
  - cbn [ops_size] in Hsz. pose proof (ops_size_nonneg ops). pose proof (op_size_nonneg o).
    assert (Hq' : quota s (2 * len ops + n + 2)).
    { replace (2 * len ops + n + 2) with (2 * len (o :: ops) + n); [done|].
      unfold len. simpl length. lia. }
    destruct (run_op_inv o s w ds (2 * len ops + n) HI) as (s1 & w1 & Hrun & HI1 & Hq1 & Hp1 & Hc1);
      [lia|unfold len; lia|done|].
    destruct (IH s1 w1 (log_after ds o) n HI1) as (s' & w' & Hrun' & HI' & Hq'' & Hp' & Hc');
      [rewrite len_log_after; lia|done|done|].
    exists s', w'. split_and!.
    + cbn [run_ops]. erewrite bind_ok; [|exact Hrun]. exact Hrun'.
    + done.
    + done.
    + congruence.
    + congruence.
Qed.

(** * Truncated files: the scan up to the damaged record *)

(** The scan of [NewStorage] over a prefix of well-formed records. *)
Lemma load_loop_prefix ds : forall fuel s w pre post,
  io_ok s w -> Forall wf ds ->
  content w (f_path (file s)) = pre ++ encode_log ds ++ post ->
  f_pos (file s) = len pre ->
  load_loop (length ds + fuel) s w =
    let r := load_pure ds (data s) (heap w) (idx s) in
    load_loop fuel
      (mkStorage (name s)
         (mkFile (f_path (file s)) (len pre + len (encode_log ds)) false)
         (writeCountSync s) (writeCountVacuum s) (muFile s) r.1.1 r.2 (config s))
      (set_heap r.1.2 w).
Proof.
  induction ds as [|d ds IH]; intros fuel s w pre post Hio Hwf Hcont Hpos.
  - cbn [length Nat.add load_pure encode_log fst snd]. cbv zeta.
    change (len []) with 0. rewrite Z.add_0_r, <- Hpos.
    destruct Hio as [Hf Hc].
    destruct s as [? [? ? ?] ? ? ? ? ? ?], w; simpl in *. by subst.
  - inversion Hwf as [|? ? Hd Hds]; subst.
    cbn [length Nat.add load_loop encode_log load_pure].
    cbn [encode_log] in Hcont. rewrite <- app_assoc in Hcont.
    destruct (decide (deleted (d_meta d) = x01)) as [Hdel|Hlive].
    + rewrite (readDatum_deleted s w pre d (encode_log ds ++ post)) by done.
      rewrite (IH fuel _ w (pre ++ encode d) post).
      * cbv zeta. sto. rewrite !len_app. repeat (f_equal; try lia).
      * eapply io_ok_same; [|exact Hio]. reflexivity.
      * done.
      * sto. rewrite Hcont. by rewrite <- app_assoc.
      * sto. by rewrite len_app.
    + rewrite (readDatum_live s w pre d (encode_log ds ++ post)) by done.
      unfold bind, alloc, Store, modS.
      rewrite (IH fuel _ _ (pre ++ encode d) post).
      * cbv zeta. sto. rewrite !len_app.
        cbn [heap set_heap].
        destruct (load_pure _ _ _ _) as [[m' h'] ix']. cbn [fst snd].
        unfold set_heap; cbn [fs heap faults trace]. repeat (f_equal; try lia).
      * destruct Hio. split; [done|]. done.
      * done.
      * sto. unfold content in *. cbn [fs set_heap]. rewrite Hcont. by rewrite <- app_assoc.
      * sto. by rewrite len_app.
Qed.

(** A header whose body is cut short: [readDatum] reports how many bytes it
    found and how many the header asked for. *)
Lemma readDatum_short s w pre m tail :
  io_ok s w -> meta_ok m -> deleted m <> x01 ->
  content w (f_path (file s)) = pre ++ meta_Bytes m ++ tail ->
  f_pos (file s) = len pre ->
  len tail < u32 (keySize m + valSize m) ->
  exists s',
    readDatum s w =
      (Err (Errorf ("reading database file: reading key/val data: read "
                    +:+ fmt_d (len tail) +:+ " bytes, need "
                    +:+ fmt_d (u32 (keySize m + valSize m)))), s', w) /\
    io_ok s' w /\ muFile s' = muFile s /\ f_path (file s') = f_path (file s).
Proof.
  intros Hio Hmok Hlive Hcont Hpos Hshort.
  assert (Hmb : len (meta_Bytes m) = 9)
    by (unfold len; rewrite length_meta_Bytes; reflexivity).
  pose proof (len_nonneg tail) as Htl.
  unfold readDatum, bind.
  rewrite (file_Read_some s w metaSize pre _ (meta_Bytes m) Hio Hcont Hpos).
  2:{ by rewrite Hmb. }
  2:{ intros E. rewrite E in Hmb. done. }
  cbn [fst snd]. rewrite Hmb.
  change (metaSize - 9) with 0.
  change (make 0) with (@nil byte). rewrite app_nil_r.
  unfold wrap, lift. rewrite meta_FromBytes_Bytes by done.
  destruct (decide (deleted m = x01)) as [|_]; [done|].
  set (total := u32 (keySize m + valSize m)) in *.
  set (s1 := set_pos _ s).
  assert (Hio1 : io_ok s1 w) by (eapply io_ok_same; [|exact Hio]; reflexivity).
  destruct tail as [|b tail].
  - rewrite file_Read_eof; [|done|lia|].
    2:{ unfold s1. sto. rewrite Hcont, Hpos, app_nil_r, len_app. lia. }
    cbn [fst snd is_EOF negb]. change (len []) with 0 in *.
    destruct (decide (u32 0 <> total)) as [_|Hn].
    + unfold fail. eexists. split; [reflexivity|]. done.
    + exfalso. apply Hn. intros E. change (u32 0) with 0 in E. lia.
  - unfold file_Read. destruct Hio1 as [Hf1 Hc1]. rewrite Hc1.
    destruct (decide (total = 0)) as [E|_]; [lia|].
    rewrite pop_fault_nil by done. cbv zeta.
    unfold s1. sto. rewrite Hcont, Hpos.
    replace (Z.to_nat (len pre + 9)) with (length (pre ++ meta_Bytes m))
      by (rewrite length_app, length_meta_Bytes; unfold len; lia).
    rewrite app_assoc, drop_app_length.
    rewrite take_ge by (unfold len in *; lia).
    cbn [fst snd].
    destruct (decide (u32 (len (b :: tail)) <> total)) as [_|Hn].
    + unfold fail. eexists. split; [reflexivity|]. done.
    + exfalso. apply Hn. rewrite u32_small; [lia|].
      pose proof (u32_range (keySize m + valSize m)). fold total in H. lia.
Qed.

(** * Truncated files: the error of the scan *)

Lemma NewStorage_short filename mode cfg w ds m tail :
  faults w = [] ->
  fs w !! filename = Some (encode_log ds ++ meta_Bytes m ++ tail) ->
  Forall wf ds -> meta_ok m -> deleted m <> x01 ->
  len tail < u32 (keySize m + valSize m) ->
  exists w',
    NewStorage filename mode cfg w =
      (Err (wrapf "reading datum: "
              (Errorf (short_body_message (len tail) (u32 (keySize m + valSize m))))),
       w') /\
    fs w' = fs w.
Proof.
  intros Hf Hfs Hwf Hmok Hlive Hshort. unfold NewStorage, os_OpenFile.
  rewrite pop_fault_nil by done. rewrite Hfs.
  assert (Hc : content w filename = [] ++ encode_log ds ++ meta_Bytes m ++ tail)
    by (unfold content; by rewrite Hfs).
  rewrite Hc. cbn [app].
  set (s0 := mkStorage _ _ _ _ _ _ _ _).
  assert (Hlen : (length ds <= length (encode_log ds ++ meta_Bytes m ++ tail))%nat).
  { rewrite length_app. pose proof (length_encode_log ds). lia. }
  replace (S (length (encode_log ds ++ meta_Bytes m ++ tail)))
    with (length ds + S (length (encode_log ds ++ meta_Bytes m ++ tail) - length ds))%nat
    by lia.
  rewrite (load_loop_prefix ds _ s0 w [] (meta_Bytes m ++ tail)); try done.
  cbv zeta. cbn [load_loop].
  match goal with |- context [readDatum ?a ?b] => set (s1 := a); set (w1 := b) end.
  assert (Hc1 : content w1 (f_path (file s1)) = encode_log ds ++ meta_Bytes m ++ tail).
  { unfold s1, w1, content, s0. cbn [file f_path fs set_heap]. by rewrite Hfs. }
  destruct (readDatum_short s1 w1 (encode_log ds) m tail) as (s2 & Hrd & Hio2 & Hmu2 & Hp2);
    try done.
  rewrite Hrd. cbn [is_EOF].
  rewrite Close_quiet by done.
  eexists. split; [reflexivity|]. reflexivity.
Qed.

(** A header that carries a tombstone is believed without its body. *)
Lemma readDatum_deleted_short s w pre m tail :
  io_ok s w -> meta_ok m -> deleted m = x01 ->
  content w (f_path (file s)) = pre ++ meta_Bytes m ++ tail ->
  f_pos (file s) = len pre ->
  readDatum s w =
    (Ok None,
     set_idx (u32 (idx s + u32 (u32 (keySize m + valSize m) + metaSize)))
       (set_pos (len pre + 9 + u32 (keySize m + valSize m)) s), w).
Proof.
  intros Hio Hmok Hdel Hcont Hpos.
  assert (Hmb : len (meta_Bytes m) = 9)
    by (unfold len; rewrite length_meta_Bytes; reflexivity).
  unfold readDatum, bind.
  rewrite (file_Read_some s w metaSize pre _ (meta_Bytes m) Hio Hcont Hpos).
  2:{ by rewrite Hmb. }
  2:{ intros E. rewrite E in Hmb. done. }
  cbn [fst snd]. rewrite Hmb.
  change (metaSize - 9) with 0.
  change (make 0) with (@nil byte). rewrite app_nil_r.
  unfold wrap, lift. rewrite meta_FromBytes_Bytes by done.
  destruct (decide (deleted m = x01)) as [_|]; [|done].
  unfold file_Seek. destruct Hio as [Hf Hc].
  change (f_closed (file (set_pos (f_pos (file s) + 9) s))) with (f_closed (file s)).
  rewrite Hc, pop_fault_nil by done. cbv zeta.
  destruct (decide (1 = 0)) as [|_]; [done|].
  destruct (decide (1 = 1)) as [_|]; [|done].
  pose proof (u32_range (keySize m + valSize m)).
  destruct (decide _) as [Hneg|_].
  { exfalso. revert Hneg. sto. pose proof (len_nonneg pre). lia. }
  unfold modS, ret. rewrite Hpos. sto_eq.
Qed.

(** * Vacuum on a well-formed file *)

Lemma vacuum_scan_log ds : forall fuel s w pre cleaned size,
  io_ok s w -> Forall wf ds ->
  content w (f_path (file s)) = pre ++ encode_log ds ->
  f_pos (file s) = len pre ->
  (length ds < fuel)%nat ->
  exists ix,
    vacuum_scan fuel cleaned size s w =
      (Ok (cleaned ++ encode_log (live_part ds),
           size + len (encode_log (live_part ds))),
       mkStorage (name s)
         (mkFile (f_path (file s)) (len pre + len (encode_log ds)) false)
         (writeCountSync s) (writeCountVacuum s) (muFile s) (data s) ix (config s),
       w).
Proof.
  induction ds as [|d ds IH]; intros fuel s w pre cleaned size Hio Hwf Hcont Hpos Hfuel.
  - destruct fuel as [|fuel]; [simpl in Hfuel; lia|]. cbn [vacuum_scan].
    rewrite readDatum_eof; [|done|].
    2:{ rewrite Hcont, Hpos. cbn [encode_log]. rewrite app_nil_r. lia. }
    cbn [is_EOF live_part filter list_filter encode_log]. exists (idx s).
    rewrite app_nil_r. change (len []) with 0. rewrite !Z.add_0_r.
    destruct Hio as [Hf Hc].
    destruct s as [? [? ? ?] ? ? ? ? ? ?]; simpl in *. by subst.
  - destruct fuel as [|fuel]; [simpl in Hfuel; lia|].
    inversion Hwf as [|? ? Hd Hds]; subst.
    cbn [vacuum_scan encode_log]. cbn [encode_log] in Hcont.
    unfold live_part. rewrite filter_cons. fold (live_part ds).
    destruct (decide (deleted (d_meta d) <> x01)) as [Hlive|Hdel].
    + rewrite (readDatum_live s w pre d (encode_log ds)) by done.
      unfold bind at 1. unfold lift at 1.
      rewrite (datum_Bytes_wf (with_idx (idx s) d)) by exact Hd.
      change (encode (with_idx (idx s) d)) with (encode d).
      destruct Hio as [Hf Hc]. rewrite pop_fault_nil by done.
      edestruct (IH fuel (set_idx (u32 (idx s + datum_Size d))
                            (set_pos (len pre + len (encode d)) s)) w
                   (pre ++ encode d) (cleaned ++ encode d) (size + len (encode d)))
        as (ix & Hrun).
      * split; [done|]. exact Hc.
      * done.
      * sto. rewrite Hcont. apply app_assoc.
      * sto. by rewrite len_app.
      * simpl in Hfuel. lia.
      * exists ix. rewrite Hrun. cbn [encode_log]. rewrite !len_app, <- !app_assoc.
        sto. repeat (f_equal; try lia).
    + assert (Hdel' : deleted (d_meta d) = x01).
      { destruct (decide (deleted (d_meta d) = x01)); [done|]. by exfalso; apply Hdel. }
      rewrite (readDatum_deleted s w pre d (encode_log ds)) by done.
      edestruct (IH fuel (set_idx (u32 (idx s + datum_Size d))
                            (set_pos (len pre + len (encode d)) s)) w
                   (pre ++ encode d) cleaned size)
        as (ix & Hrun).
      * destruct Hio as [Hf Hc]. split; [done|]. exact Hc.
      * done.
      * sto. rewrite Hcont. apply app_assoc.
      * sto. by rewrite len_app.
      * simpl in Hfuel. lia.
      * exists ix. rewrite Hrun. rewrite !len_app.
        sto. repeat (f_equal; try lia).
Qed.

Lemma bufSize_pos : (0 < bufSize)%nat.
Proof. unfold bufSize. lia. Qed.

Lemma vacuum_copy_spec fuel : forall rest s w written old,
  io_ok s w ->
  content w (f_path (file s)) = written ++ old ->
  f_pos (file s) = len written ->
  (length rest <= length old)%nat ->
  (length rest < fuel)%nat ->
  exists w',
    vacuum_copy fuel rest s w = (Ok tt, set_pos (len written + len rest) s, w') /\
    content w' (f_path (file s)) = written ++ rest ++ drop (length rest) old /\
    (forall q, q <> f_path (file s) -> fs w' !! q = fs w !! q) /\
    heap w' = heap w /\ faults w' = [] /\
    filter (fun e => negb (is_write e)) (trace w')
      = filter (fun e => negb (is_write e)) (trace w).
Proof.
  induction fuel as [|fuel IH]; intros rest s w written old Hio Hcont Hpos Hle Hfuel; [lia|].
  pose proof Hio as [Hf Hc].
  cbn [vacuum_copy]. unfold bind at 1. unfold wrap, temp_call.
  rewrite pop_fault_nil by done.
  destruct (take bufSize rest) as [|b chunk] eqn:Hchunk.
  - assert (rest = []) as ->.
    { destruct rest; [done|]. pose proof bufSize_pos.
      destruct bufSize; [lia|]. done. }
    exists w. unfold ret. split_and!; try done.
    change (len []) with 0. rewrite Z.add_0_r, <- Hpos.
    destruct s as [? [? ? ?] ? ? ? ? ? ?]; reflexivity.
  - rewrite <- Hchunk. set (ch := take bufSize rest) in *.
    assert (Hrest : rest = ch ++ drop bufSize rest) by (unfold ch; by rewrite take_drop).
    assert (Hchl : (0 < length ch)%nat) by (rewrite Hchunk; simpl; lia).
    assert (Hchlen : length ch = Nat.min bufSize (length rest))
      by (unfold ch; by rewrite length_take).
    assert (Hchle : (length ch <= length rest)%nat) by lia.
    erewrite bind_ok; [|by apply file_Write_quiet].
    set (s1 := set_pos _ s). set (w1 := do_write _ _ _ _).
    assert (Hc1 : content w1 (f_path (file s1))
                  = (written ++ ch) ++ drop (length ch) old).
    { unfold w1, s1. sto. rewrite content_do_write, Hcont, Hpos.
      replace (Z.to_nat (len written)) with (length written) by (unfold len; lia).
      rewrite <- (take_drop (length ch) old) at 1.
      rewrite (write_at_mid written (take (length ch) old) _ ch).
      - by rewrite <- app_assoc.
      - rewrite length_take. lia. }
    destruct (IH (drop bufSize rest) s1 w1 (written ++ ch) (drop (length ch) old))
      as (w' & Hrun & Hc' & Hfs' & Hh' & Hf' & Htr').
    + split; [done|]. exact Hc.
    + exact Hc1.
    + unfold s1. sto. rewrite Hpos, len_app. reflexivity.
    + rewrite !length_drop. lia.
    + rewrite length_drop. lia.
    + exists w'. split_and!.
      * rewrite Hrun. unfold s1. sto. f_equal. f_equal. f_equal. f_equal.
        rewrite Hrest at 2. rewrite !len_app. lia.
      * change (f_path (file s1)) with (f_path (file s)) in Hc'.
        rewrite Hc', drop_drop, <- app_assoc. f_equal.
        transitivity (ch ++ drop bufSize rest ++ drop (length rest) old).
        -- do 3 f_equal. rewrite length_drop. lia.
        -- rewrite app_assoc. by rewrite <- Hrest.
      * intros q Hq. rewrite Hfs' by done. unfold w1. by rewrite fs_do_write_ne.
      * by rewrite Hh'.
      * done.
      * rewrite Htr'. unfold w1, do_write, log_event. cbn [trace set_fs].
        rewrite filter_app. cbn. by rewrite app_nil_r.
Qed.

Lemma length_live_part ds :
  (length (encode_log (live_part ds)) <= length (encode_log ds))%nat.
Proof.
  unfold live_part. induction ds as [|d ds IH]; [done|].
  rewrite filter_cons. cbn [encode_log]. 
  destruct (decide _); cbn [encode_log]; rewrite ?length_app; lia.
Qed.

Lemma seek_start_quiet s w :
  io_ok s w -> seek_start s w = (Ok tt, set_pos 0 s, w).
Proof.
  intros Hio. unfold seek_start. rewrite file_Seek_start by done.
  destruct (decide (0 <> 0)); done.
Qed.

Lemma file_Truncate_quiet s w n :
  io_ok s w ->
  file_Truncate n s w =
    (Ok tt, s,
     log_event (EvTruncate (f_path (file s)) n)
       (set_fs (<[f_path (file s) :=
                   take (Z.to_nat n) (content w (f_path (file s)))
                   ++ repeat x00 (Z.to_nat n - length (content w (f_path (file s))))]>
                  (fs w)) w)).
Proof.
  intros [Hf Hc]. unfold file_Truncate. rewrite Hc, pop_fault_nil by done. reflexivity.
Qed.

Lemma vacuum_quiet s w ds :
  io_ok s w -> muFile s = false ->
  fs w !! f_path (file s) = Some (encode_log ds) -> Forall wf ds ->
  exists s' w',
    vacuum s w = (Ok tt, s', w') /\
    data s' = data s /\ heap w' = heap w /\
    fs w' = <[f_path (file s) := encode_log (live_part ds)]> (fs w) /\
    idx s' = u32 (len (encode_log (live_part ds))) /\
    io_ok s' w' /\ muFile s' = false /\
    f_path (file s') = f_path (file s) /\ config s' = config s /\
    writeCountVacuum s' = writeCountVacuum s /\
    filter (fun e => negb (is_write e)) (trace w')
      = filter (fun e => negb (is_write e)) (trace w)
        ++ [EvTruncate (f_path (file s)) (len (encode_log (live_part ds)))].
Proof.
  intros Hio Hmu Hfs Hwf. pose proof Hio as [Hf Hc].
  assert (Hcont : content w (f_path (file s)) = encode_log ds)
    by (unfold content; by rewrite Hfs).
  unfold vacuum, locked. rewrite Hmu.
  set (s0 := set_muFile true s).
  assert (Hio0 : io_ok s0 w) by (split; done).
  erewrite bind_ok; [|by apply seek_start_quiet].
  unfold wrap at 1, temp_call at 1.
  unfold bind at 1. rewrite pop_fault_nil by done.
  unfold defer_.
  erewrite bind_ok; [|reflexivity].
  erewrite bind_ok; [|reflexivity].
  set (s1 := set_pos 0 s0).
  assert (Hio1 : io_ok s1 w) by (split; done).
  change (f_path (file s1)) with (f_path (file s)). rewrite Hcont.
  destruct (vacuum_scan_log ds (S (length (encode_log ds))) s1 w [] [] 0)
    as (ix & Hscan); try done.
  { pose proof (length_encode_log ds). lia. }
  erewrite bind_ok; [|exact Hscan].
  cbn [fst snd app]. rewrite Z.add_0_l.
  set (cl := encode_log (live_part ds)).
  match goal with |- context [bind _ _ ?a w] => set (s2 := a) end.
  assert (Hio2 : io_ok s2 w) by (split; done).
  unfold bind at 1. unfold temp_call at 1. rewrite pop_fault_nil by done.
  erewrite bind_ok; [|by apply seek_start_quiet].
  set (s3 := set_pos 0 s2).
  assert (Hio3 : io_ok s3 w) by (split; done).
  destruct (vacuum_copy_spec (S (length cl)) cl s3 w [] (encode_log ds))
    as (w4 & Hcopy & Hc4 & Hfs4 & Hh4 & Hf4 & Htr4); try done.
  { apply length_live_part. }
  { lia. }
  erewrite bind_ok; [|exact Hcopy].
  set (s4 := set_pos _ s3).
  assert (Hio4 : io_ok s4 w4) by (split; done).
  erewrite bind_ok; [|by apply wrap_ok, file_Truncate_quiet].
  unfold modS. rewrite pop_fault_nil.
  2:{ unfold log_event. cbn [faults set_fs]. exact Hf4. }
  eexists _, _. split; [reflexivity|].
  cbn [app] in Hc4.
  change (f_path (file s4)) with (f_path (file s)).
  change (f_path (file s3)) with (f_path (file s)) in *.
  rewrite Hc4.
  replace (Z.to_nat (len cl)) with (length cl) by (unfold len; lia).
  rewrite take_app_length.
  replace (length cl - length (cl ++ drop (length cl) (encode_log ds)))%nat
    with 0%nat by (rewrite length_app; lia).
  cbn [repeat snd]. rewrite app_nil_r.
  split_and!; try done.
  - cbn [fs log_event set_fs]. apply map_eq. intros q.
    destruct (decide (q = f_path (file s))) as [->|Hne].
    + by rewrite !lookup_insert_eq.
    + rewrite !lookup_insert_ne by done. by apply Hfs4.
  - cbn [trace log_event set_fs]. rewrite filter_app, Htr4. reflexivity.
Qed.

(** * The order of the writes of Set *)

Lemma offsets_ok_NoDup ds : forall base, offsets_ok base ds -> NoDup ds.
Proof.
  induction ds as [|d ds IH]; intros base Hok; [constructor|].
  destruct Hok as [Hd Hok]. constructor; [|by eapply IH].
  intros Hin. destruct (offsets_ok_bounds _ _ _ Hok Hin) as [Hlo _].
  pose proof (len_encode_ge d). lia.
Qed.

Lemma Inv'_nodup m path w ds : Inv' m path w ds -> NoDup (live_keys ds).
Proof.
  intros H. unfold live_keys. apply NoDup_fmap_2_strong.
  - intros x y Hx Hy E.
    apply list_elem_of_filter in Hx as [Hlx Hx], Hy as [Hly Hy].
    destruct (v_live _ _ _ _ H x Hx Hlx) as (p & Hp & Hhp).
    destruct (v_live _ _ _ _ H y Hy Hly) as (q & Hq & Hhq).
    rewrite E, Hq in Hp. injection Hp as <-. congruence.
  - apply NoDup_filter. eapply offsets_ok_NoDup, (v_off _ _ _ _ H).
Qed.

Lemma Inv'_not_live m path w ds k :
  Inv' m path w ds -> m !! k = None -> k ∉ live_keys ds.
Proof.
  intros H Hk Hin. unfold live_keys in Hin.
  apply list_elem_of_fmap in Hin as (d & -> & Hd).
  apply list_elem_of_filter in Hd as [Hl Hd].
  by apply (Inv'_no_live _ _ _ _ _ H Hk d Hd Hl).
Qed.

Lemma writes_synced s w : writes (trace (synced s w)) = writes (trace w).
Proof.
  unfold synced. destruct (decide _); [|done].
  unfold log_event, writes. cbn [trace]. rewrite filter_app. cbn. by rewrite app_nil_r.
Qed.

Lemma writes_do_write path off b w :
  writes (trace (do_write path off b w)) = writes (trace w) ++ [EvWrite path off b].
Proof.
  unfold do_write, log_event, writes. cbn [trace set_fs]. by rewrite filter_app.
Qed.

(** [Set] on a key of the index, when nothing fails: the tombstone of the
    old record, then the new record at the end of the file. *)
Lemma Set_quiet_some key value s w p d :
  io_ok s w -> muFile s = false -> quota s 2 ->
  data s !! key = Some p -> heap w !! p = Some d -> 0 <= d_idx d ->
  fits key value ->
  exists s' w',
    Storage_Set key value s w = (Ok tt, s', w') /\
    writes (trace w') =
      writes (trace w)
      ++ [EvWrite (f_path (file s)) (d_idx d + 8) [x01];
          EvWrite (f_path (file s))
            (len (write_at (content w (f_path (file s))) (Z.to_nat (d_idx d + 8)) [x01]))
            (encode (datum_Set newDatum key value))].
Proof.
  intros Hio Hmu Hq Hk Hp Hidx Hfit.
  pose proof (wf_Set key value Hfit) as Hwf.
  assert (Hq01 : quota s 1) by (apply (quota_mono s 2); [lia|done]).
  unfold Storage_Set. erewrite bind_ok; [|reflexivity]. rewrite Hk.
  erewrite bind_ok; [|apply wrap_ok, (reclaimSpace_quiet p d); done].
  set (s1 := after_write s _). set (w0 := do_write _ _ _ _) in *. set (w1 := synced s _).
  assert (Hio1 : io_ok s1 w1) by (apply io_ok_after, Hio).
  assert (Hq1 : quota s1 1).
  { apply quota_after_write; [lia|]. done. }
  rewrite appendDatum_quiet; [|done|done|done|done].
  cbv zeta. eexists _, _. split; [reflexivity|].
  rewrite writes_synced, writes_do_write. cbn [trace set_heap].
  unfold w1. rewrite writes_synced. unfold w0. rewrite writes_do_write.
  cbn [trace set_heap]. rewrite <- app_assoc. cbn [app].
  do 3 f_equal. change (f_path (file s1)) with (f_path (file s)).
  f_equal. rewrite content_synced, content_do_write. reflexivity.
Qed.

(** * Writes under arbitrary I/O faults *)

(** While the file mutex is held, [vacuum] never gets it. *)
Lemma vacuum_locked s w : muFile s = true -> vacuum s w = (Blocked, s, w).
Proof. intros H. unfold vacuum, locked. by rewrite H. Qed.

(** [incAndSync] under the file mutex, whatever the faults: it touches
    neither the index, nor the heap, nor the files. *)
Lemma incAndSync_locked s w r s' w' :
  muFile s = true -> incAndSync s w = (r, s', w') ->
  data s' = data s /\ heap w' = heap w /\ fs w' = fs w /\
  file s' = file s /\ muFile s' = true /\
  (r = Ok tt \/ r = Blocked \/ exists e, r = Err e).
Proof.
  intros Hmu H. unfold incAndSync in H.
  unfold bind at 1 in H. unfold getS at 1 in H.
  unfold bind at 1 in H. unfold modS at 1 in H.
  unfold bind at 1 in H. unfold modS at 1 in H.
  set (s2 := set_writeCountVacuum _ _) in H.
  assert (Hmu2 : muFile s2 = true) by exact Hmu.
  unfold bind at 1 in H.
  destruct (decide (VacuumBatch (config s) > 0 /\ _)) as [Hdue|Hnot].
  - unfold bind at 1 in H. unfold wrap at 1 in H.
    rewrite (vacuum_locked s2 w Hmu2) in H. injection H as <- <- <-.
    split_and!; try done. right. by left.
  - unfold ret at 1 in H.
    destruct (decide (FsyncBatch (config s) > 0 /\ _)) as [Hs|Hs].
    + unfold bind at 1 in H. unfold wrap at 1, file_Sync at 1 in H.
      destruct (f_closed (file s2)) eqn:Hc.
      * injection H as <- <- <-. split_and!; try done. right. right. eauto.
      * unfold pop_fault in H. destruct (faults w) as [|[ft|] l].
        -- unfold modS in H. injection H as <- <- <-. split_and!; try done. by left.
        -- injection H as <- <- <-. split_and!; try done. right. right. eauto.
        -- unfold modS in H. injection H as <- <- <-. split_and!; try done. by left.
    + unfold ret in H. injection H as <- <- <-. split_and!; try done. by left.
Qed.

Lemma pop_fault_frame w o w' :
  pop_fault w = (o, w') -> fs w' = fs w /\ heap w' = heap w /\ trace w' = trace w.
Proof.
  unfold pop_fault. destruct (faults w); intros [= <- <-]; done.
Qed.

Lemma content_frame w w' q : fs w' = fs w -> content w' q = content w q.
Proof. intros H. unfold content. by rewrite H. Qed.

Lemma deref_frame w w' p : heap w' = heap w -> deref w' p = deref w p.
Proof. intros H. unfold deref. by rewrite H. Qed.

(** A tombstone write that returned without an error did write the byte. *)
Lemma writeDeletedByte_Ok p s w s' w' :
  muFile s = false -> writeDeletedByte p s w = (Ok tt, s', w') ->
  data s' = data s /\ heap w' = heap w /\ muFile s' = false /\
  f_path (file s') = f_path (file s) /\
  0 <= d_idx (deref w p) + 8 /\
  fs w' = <[f_path (file s) :=
              write_at (content w (f_path (file s)))
                (Z.to_nat (d_idx (deref w p) + 8)) [datum_Deleted (deref w p)]]> (fs w).
Proof.
  intros Hmu H. unfold writeDeletedByte, locked in H. rewrite Hmu in H.
  match type of H with
  | (match ?body with _ => _ end) = _ => destruct body as [[r1 s1] w1] eqn:Hb
  end.
  destruct r1 as [[]|e| | |]; try discriminate. injection H as <- <-.
  unfold bind at 1 in Hb. unfold getW at 1 in Hb.
  unfold bind at 1 in Hb. unfold wrap at 1, file_Seek at 1 in Hb.
  sto. destruct (f_closed (file s)) eqn:Hc; [discriminate|].
  destruct (pop_fault w) as [[ft|] wp] eqn:Hpf; [discriminate|].
  destruct (pop_fault_frame _ _ _ Hpf) as (Hfs1 & Hh1 & _).
  cbv zeta in Hb. destruct (decide (0 = 0)) as [_|]; [|done].
  unfold metaSize in Hb.
  replace (0 + (d_idx (deref w p) + 9 - 1)) with (d_idx (deref w p) + 8) in Hb by lia.
  replace (d_idx (deref w p) + 9 - 1) with (d_idx (deref w p) + 8) in Hb by lia.
  destruct (decide (d_idx (deref w p) + 8 < 0)) as [|Hge]; [discriminate|].
  destruct (decide (d_idx (deref w p) + 8 <> d_idx (deref w p) + 8)) as [|_]; [done|].
  unfold bind at 1 in Hb. unfold wrap at 1, file_Write at 1 in Hb. sto.
  destruct (pop_fault wp) as [[ft|] wq] eqn:Hpf2; [discriminate|].
  destruct (pop_fault_frame _ _ _ Hpf2) as (Hfs2 & Hh2 & _).
  change (len [datum_Deleted (deref w p)]) with 1 in Hb.
  destruct (decide (1 <> 1)) as [|_]; [done|].
  apply incAndSync_locked in Hb as (Hd & Hh & Hfs & Hfile & _); [|done].
  cbn [data file f_path] in *. split_and!; try done.
  - rewrite Hh. cbn [heap do_write set_fs log_event]. congruence.
  - by rewrite Hfile.
  - lia.
  - rewrite Hfs. unfold do_write. cbn [fs set_fs log_event].
    rewrite (content_frame wq w) by congruence. congruence.
Qed.

Lemma reclaimSpace_Ok p s w s' w' :
  muFile s = false -> reclaimSpace p s w = (Ok tt, s', w') ->
  data s' = data s /\ heap w' = alter datum_MarkDeleted p (heap w) /\
  muFile s' = false /\ f_path (file s') = f_path (file s) /\
  0 <= d_idx (deref w p) + 8 /\
  ((p < length (heap w))%nat ->
   fs w' = <[f_path (file s) :=
               write_at (content w (f_path (file s)))
                 (Z.to_nat (d_idx (deref w p) + 8)) [x01]]> (fs w)).
Proof.
  intros Hmu H. unfold reclaimSpace in H.
  unfold bind at 1 in H. unfold update at 1, modW at 1 in H.
  unfold wrap in H.
  set (w1 := set_heap _ w) in H.
  destruct (writeDeletedByte p s w1) as [[r s2] w2] eqn:HW.
  destruct r as [[]|e| | |]; try discriminate. injection H as <- <-.
  apply writeDeletedByte_Ok in HW as (Hd & Hh & Hmu' & Hp & Hge & Hfs); [|done].
  assert (Hidx : d_idx (deref w1 p) = d_idx (deref w p)).
  { unfold deref, w1. cbn [heap set_heap]. rewrite list_lookup_alter_eq.
    by destruct (heap w !! p). }
  rewrite Hidx in *. split_and!; try done.
  intros Hlt. rewrite Hfs. unfold w1 at 2 3. cbn [fs set_heap].
  unfold content at 1. cbn [fs w1 set_heap]. fold (content w (f_path (file s))).
  do 3 f_equal. unfold deref, w1. cbn [heap set_heap]. rewrite list_lookup_alter_eq.
  destruct (heap w !! p) eqn:E; [done|]. apply lookup_ge_None in E. lia.
Qed.

Lemma d_value_alter_idx w i p q h :
  heap w = alter (with_idx i) p h ->
  d_value (deref w q) = d_value (default newDatum (h !! q)).
Proof.
  intros H. unfold deref. rewrite H.
  destruct (decide (p = q)) as [->|Hne].
  - rewrite list_lookup_alter_eq. by destruct (h !! q).
  - by rewrite list_lookup_alter_ne.
Qed.

(** Whatever happens to an append, the index keeps its entries, the datums
    keep their values, and the file only grows at its end. *)
Lemma writeDatumToFile_frame p s w r s' w' :
  muFile s = false -> writeDatumToFile p s w = (r, s', w') ->
  data s' = data s /\
  (forall q, d_value (deref w' q) = d_value (deref w q)) /\
  f_path (file s') = f_path (file s) /\
  exists tail,
    content w' (f_path (file s)) = content w (f_path (file s)) ++ tail.
Proof.
  intros Hmu H. unfold writeDatumToFile, locked in H. rewrite Hmu in H.
  match type of H with
  | (match ?body with _ => _ end) = _ => destruct body as [[r1 s1] w1] eqn:Hb
  end.
  assert (Hgoal : data s1 = data s /\
            (forall q, d_value (deref w1 q) = d_value (deref w q)) /\
            f_path (file s1) = f_path (file s) /\
            exists tail, content w1 (f_path (file s)) = content w (f_path (file s)) ++ tail).
  2:{ destruct Hgoal as (? & ? & ? & ?).
      destruct r1; injection H as <- <- <-; done. }
  clear H.
  unfold bind at 1 in Hb. unfold wrap at 1, file_Seek at 1 in Hb. sto.
  destruct (f_closed (file s)) eqn:Hc.
  { injection Hb as <- <- <-. split_and!; try done. exists []. by rewrite app_nil_r. }
  destruct (pop_fault w) as [[ft|] wp] eqn:Hpf.
  { destruct (pop_fault_frame _ _ _ Hpf) as (Hfs1 & Hh1 & _).
    injection Hb as <- <- <-. split_and!; try done.
    - intros q. by rewrite (deref_frame wp w).
    - exists []. by rewrite app_nil_r, (content_frame wp w). }
  destruct (pop_fault_frame _ _ _ Hpf) as (Hfs1 & Hh1 & _).
  cbv zeta in Hb. destruct (decide (2 = 0)) as [|_]; [done|].
  destruct (decide (2 = 1)) as [|_]; [done|].
  rewrite Z.add_0_r in Hb.
  set (off := len (content wp (f_path (file s)))) in Hb.
  destruct (decide (off < 0)) as [Hneg|_]; [unfold off, len in Hneg; lia|].
  unfold bind at 1 in Hb. unfold update at 1, modW at 1 in Hb.
  unfold bind at 1 in Hb. unfold getW at 1 in Hb.
  set (w2 := set_heap _ wp) in Hb.
  assert (Hv2 : forall q, d_value (deref w2 q) = d_value (deref w q)).
  { intros q. rewrite (d_value_alter_idx w2 (u32 off) p q (heap wp)) by reflexivity.
    unfold deref. by rewrite Hh1. }
  assert (Hc2 : content w2 (f_path (file s)) = content w (f_path (file s))).
  { apply content_frame. unfold w2. cbn [fs set_heap]. done. }
  unfold bind at 1 in Hb. unfold lift at 1 in Hb.
  destruct (datum_Bytes (deref w2 p)) as [b|e| | |] eqn:HB;
    try (injection Hb as <- <- <-; split_and!; try done;
         exists []; by rewrite app_nil_r).
  unfold bind at 1 in Hb. unfold wrap at 1, file_Write at 1 in Hb. sto.
  assert (Hoff : Z.to_nat off = length (content w2 (f_path (file s)))).
  { rewrite Hc2. unfold off, len. rewrite (content_frame wp w) by done. lia. }
  destruct (pop_fault w2) as [[ft|] wq] eqn:Hpf2.
  { destruct (pop_fault_frame _ _ _ Hpf2) as (Hfs2 & Hh2 & _).
    injection Hb as <- <- <-. split_and!; try done.
    - intros q. rewrite <- Hv2. f_equal. apply deref_frame. cbn [heap do_write set_fs log_event]. done.
    - eexists. rewrite content_do_write, (content_frame w2 wq) by done.
      rewrite Hoff, write_at_end, Hc2. reflexivity. }
  destruct (pop_fault_frame _ _ _ Hpf2) as (Hfs2 & Hh2 & _).
  set (w3 := do_write _ _ _ wq) in Hb.
  assert (Hv3 : forall q, d_value (deref w3 q) = d_value (deref w q)).
  { intros q. rewrite <- Hv2. f_equal. apply deref_frame. unfold w3.
    cbn [heap do_write set_fs log_event]. done. }
  assert (Hc3 : content w3 (f_path (file s)) = content w (f_path (file s)) ++ b).
  { unfold w3. rewrite content_do_write, (content_frame w2 wq) by done.
    rewrite Hoff, write_at_end, Hc2. reflexivity. }
  destruct (decide (len b <> datum_Size (deref w2 p))) as [Hn|_].
  { injection Hb as <- <- <-. split_and!; try done. by exists b. }
  apply incAndSync_locked in Hb as (Hd & Hh & Hfs & Hfile & _); [|done].
  split_and!.
  - by rewrite Hd.
  - intros q. rewrite <- Hv3. f_equal. by apply deref_frame.
  - by rewrite Hfile.
  - exists b. rewrite <- Hc3. by apply content_frame.
Qed.

Lemma appendDatum_frame key value s w r s' w' :
  muFile s = false -> appendDatum key value s w = (r, s', w') ->
  data s' = <[key := length (heap w)]> (data s) /\
  d_value (deref w' (length (heap w))) = value /\
  (forall q, (q < length (heap w))%nat -> d_value (deref w' q) = d_value (deref w q)) /\
  f_path (file s') = f_path (file s) /\
  exists tail,
    content w' (f_path (file s)) = content w (f_path (file s)) ++ tail.
Proof.
  intros Hmu H. unfold appendDatum in H.
  unfold bind at 1 in H. unfold alloc at 1 in H.
  unfold bind at 1 in H. unfold Store at 1, modS at 1 in H.
  apply writeDatumToFile_frame in H as (Hd & Hv & Hp & tail & Hc); [|done].
  split_and!.
  - by rewrite Hd.
  - rewrite Hv. unfold deref. cbn [heap set_heap].
    rewrite lookup_app_r, Nat.sub_diag by lia. apply d_value_Set.
  - intros q Hq. rewrite Hv. unfold deref. cbn [heap set_heap].
    by rewrite lookup_app_l.
  - by rewrite Hp.
  - exists tail. exact Hc.
Qed.

Lemma Inv'_faults m path w ds l : Inv' m path w ds -> Inv' m path (set_faults l w) ds.
Proof. intros [? ? ? ? ? ? ?]. by constructor. Qed.

Lemma Set_failed_append key value s w ds e s' w' :
  Inv' (data s) (f_path (file s)) w ds -> muFile s = false ->
  (forall p, data s !! key = Some p ->
             exists s1 w1, reclaimSpace p s w = (Ok tt, s1, w1)) ->
  Storage_Set key value s w = (Err e, s', w') ->
  Get key s' w' = (value, true) /\
  exists tail,
    content w' (f_path (file s)) = encode_log (tombstone key ds) ++ tail.
Proof.
  intros HI Hmu Hrec H. unfold Storage_Set in H.
  unfold bind at 1 in H. unfold Load at 1 in H.
  destruct (data s !! key) as [p|] eqn:Hk.
  - destruct (Hrec p eq_refl) as (s1 & w1 & Hr).
    unfold bind at 1 in H. unfold wrap at 1 in H. rewrite Hr in H.
    destruct (v_idx _ _ _ _ HI key p Hk) as (d & Hp & Hin & _).
    apply reclaimSpace_Ok in Hr as (Hd1 & Hh1 & Hmu1 & Hp1 & _ & Hfs1); [|done].
    specialize (Hfs1 (lookup_lt_Some _ _ _ Hp)).
    apply appendDatum_frame in H as (Hd' & Hv' & _ & Hp' & tail & Hc'); [|done].
    split.
    + unfold Get. rewrite Hd', lookup_insert_eq. by rewrite Hv'.
    + exists tail. rewrite Hp1 in Hc'. rewrite Hc'. f_equal.
      destruct (Inv'_tomb _ _ _ _ _ _ _ HI Hk Hp) as (HT & _).
      rewrite <- (Inv'_content _ _ _ _ HT).
      unfold content. rewrite Hfs1. unfold do_write. cbn [fs set_fs log_event set_heap].
      rewrite !lookup_insert_eq. cbn [default]. rewrite (deref_Some _ _ _ Hp).
      reflexivity.
  - unfold bind at 1 in H. unfold ret at 1 in H.
    apply appendDatum_frame in H as (Hd' & Hv' & _ & Hp' & tail & Hc'); [|done].
    split.
    + unfold Get. rewrite Hd', lookup_insert_eq. by rewrite Hv'.
    + exists tail. rewrite Hc', (Inv'_content _ _ _ _ HI).
      rewrite tombstone_id; [done|]. by eapply Inv'_no_live.
Qed.

(** * Get after a sequence of operations *)

Lemma session_inv filename mode cfg ops w0 ds0 n :
  faults w0 = [] -> content w0 filename = encode_log ds0 -> clean ds0 ->
  len (encode_log ds0) + ops_size ops < 4294967296 ->
  0 <= n -> vacuum_free cfg (2 * len ops + n) ->
  exists s w,
    session filename mode cfg ops w0 = Some (s, w) /\
    Inv s w (foldl log_after ds0 ops) /\ quota s n /\
    f_path (file s) = filename /\ config s = default defaultConfig cfg.
Proof.
  intros Hf Hc Hcl Hsz Hn Hvf.
  destruct (NewStorage_inv filename mode cfg w0 ds0 Hf Hc Hcl)
    as (s0 & w1 & HN & HI0 & Hp0 & Hcfg0 & Hwcv0 & _).
  destruct (run_ops_inv ops s0 w1 ds0 n HI0 Hsz Hn) as (s & w & HR & HI & Hq & Hp & Hcfg).
  { unfold quota. rewrite Hcfg0, Hwcv0. destruct Hvf as [E|Hlt]; [left; lia|right].
    unfold len in *. lia. }
  exists s, w. unfold session. rewrite HN, HR. split_and!; try done; congruence.
Qed.

Lemma session_light filename mode cfg ops w0 :
  faults w0 = [] -> content w0 filename = [] -> Forall op_fits ops ->
  vacuum_free cfg (2 * len ops) ->
  exists s w,
    session filename mode cfg ops w0 = Some (s, w) /\
    index_view s w = foldl apply_op ∅ ops.
Proof.
  intros Hf Hc Hfit Hvf.
  assert (Hcl : clean []) by (constructor; try done; constructor).
  destruct (NewStorage_inv filename mode cfg w0 [] Hf Hc Hcl)
    as (s0 & w1 & HN & HI0 & Hp0 & Hcfg0 & Hwcv0 & _).
  destruct (run_ops_light ops s0 w1) as (s & w & HR & _ & Hv); try done.
  { by eapply Inv_Light. }
  { unfold quota. rewrite Hcfg0, Hwcv0. destruct Hvf as [E|Hlt]; [left; lia|right].
    unfold len in *. lia. }
  exists s, w. unfold session. rewrite HN, HR. split; [done|].
  rewrite Hv. f_equal. rewrite index_view_of.
  by rewrite (Inv'_view _ _ _ _ (i_log _ _ _ HI0)).
Qed.

(** C1. After any sequence of Set and Delete operations on a store opened
    on an empty file (each record fitting 32 bits, no I/O fault, vacuum not
    triggered), [Get k] returns [(v, true)] exactly when the last operation
    on [k] was [Set(k, v)], and [(empty, false)] when there is no such [v]. *)
Theorem C1_get_after_ops filename mode cfg ops w0 :
  faults w0 = [] -> content w0 filename = [] -> Forall op_fits ops ->
  vacuum_free cfg (2 * len ops) ->
  exists s w,
    session filename mode cfg ops w0 = Some (s, w) /\
    forall k,
      (forall v, Get k s w = (v, true) <-> last_set ops k v) /\
      ((forall v, ~ last_set ops k v) -> Get k s w = ([], false)).
Proof.
  intros Hf Hc Hfit Hvf.
  destruct (session_light filename mode cfg ops w0 Hf Hc Hfit Hvf) as (s & w & HS & Hv).
  exists s, w. split; [done|]. intros k. rewrite Get_view, Hv. split.
  - intros v. rewrite <- model_lookup.
    destruct (foldl apply_op ∅ ops !! k) as [v'|]; split; intros H; congruence.
  - intros Hno. destruct (foldl apply_op ∅ ops !! k) as [v'|] eqn:E; [|done].
    exfalso. apply (Hno v'). by apply model_lookup.
Qed.

Lemma C1_get_after_ops_witness :
  exists s w,
    session "db" 420 None ops1 world0 = Some (s, w) /\
    Get "frodo" s w = (bytes "ring", true) /\ Get "gandalf" s w = ([], false).
Proof.
  destruct (C1_get_after_ops "db" 420 None ops1 world0) as (s & w & HS & HG).
  - reflexivity.
  - reflexivity.
  - repeat constructor.
  - right. vm_compute. reflexivity.
  - exists s, w. split; [exact HS|]. clear HS. split.
    + apply (HG "frodo"). apply model_lookup. vm_compute. reflexivity.
    + apply (HG "gandalf"). intros v Hls. apply model_lookup in Hls.
      vm_compute in Hls. discriminate Hls.
Defined.

(** * Durability and compaction *)

(** C3. Durability. Starting from a clean log (an empty or absent file, or
    what an earlier session left), after any sequence of Set and Delete
    operations that keeps the file under 4 GiB, without I/O fault and
    without triggering vacuum, [Close] succeeds, opening the same path
    again succeeds, and the new index maps the same keys to the same
    values. On any file of well-formed records the scan of [NewStorage]
    builds the index [replay]: each record without a tombstone is installed
    under its key, a later one replacing an earlier one, and tombstoned
    records are passed over. *)
Theorem C3_durability filename mode cfg cfg' ops w0 ds0 :
  faults w0 = [] -> content w0 filename = encode_log ds0 -> clean ds0 ->
  len (encode_log ds0) + ops_size ops < 4294967296 ->
  vacuum_free cfg (2 * len ops) ->
  (exists s w s' w' s2 w2,
     session filename mode cfg ops w0 = Some (s, w) /\
     Close s w = (Ok tt, s', w') /\
     NewStorage filename mode cfg' w' = (Ok s2, w2) /\
     index_view s2 w2 = index_view s w /\
     forall k, Get k s2 w2 = Get k s w) /\
  (forall w ds,
     faults w = [] -> fs w !! filename = Some (encode_log ds) -> Forall wf ds ->
     exists s2 w2,
       NewStorage filename mode cfg' w = (Ok s2, w2) /\
       index_view s2 w2 = replay ds).
Proof.
  intros Hf Hc Hcl Hsz Hvf. split.
  - destruct (session_inv filename mode cfg ops w0 ds0 0 Hf Hc Hcl Hsz)
      as (s & w & HS & HI & _ & Hp & _); [lia|by rewrite Z.add_0_r|].
    pose proof HI as [Hio Hmu HI'].
    set (ds := foldl log_after ds0 ops) in *.
    destruct (NewStorage_view filename mode cfg' (log_event (EvSync filename) w) ds)
      as (s2 & w2 & HN & Hv & _).
    + apply Hio.
    + cbn [fs log_event]. rewrite <- Hp. apply (v_file _ _ _ _ HI').
    + apply (v_wf _ _ _ _ HI').
    + eexists s, w, _, _, s2, w2. split; [exact HS|].
      split; [rewrite Close_quiet by done; reflexivity|].
      rewrite Hp. split; [exact HN|].
      assert (Hvv : index_view s2 w2 = index_view s w).
      { rewrite Hv, index_view_of. symmetry. by apply (Inv'_view _ _ _ _ HI'). }
      split; [done|]. intros k. by rewrite !Get_view, Hvv.
  - intros w ds Hfw Hfs Hwf.
    destruct (NewStorage_view filename mode cfg' w ds Hfw Hfs Hwf) as (s2 & w2 & HN & Hv & _).
    by exists s2, w2.
Qed.

Lemma clean_nil : clean [].
Proof. constructor; [constructor|exact I|constructor|constructor|reflexivity]. Qed.

Lemma C3_durability_witness :
  exists s w s' w' s2 w2,
    session "db" 420 None ops3 world0 = Some (s, w) /\
    Close s w = (Ok tt, s', w') /\
    NewStorage "db" 420 None w' = (Ok s2, w2) /\
    index_view s2 w2 = index_view s w /\
    forall k, Get k s2 w2 = Get k s w.
Proof.
  apply (C3_durability "db" 420 None None ops3 world0 []).
  - reflexivity.
  - reflexivity.
  - exact clean_nil.
  - vm_compute. reflexivity.
  - right. vm_compute. reflexivity.
Defined.

(** C4. Compaction. For a Storage whose file holds well-formed records
    (open, its mutex free, no I/O fault, the live records under 4 GiB),
    [vacuum] returns without error, leaves the index and every datum it
    points to as they were, leaves in the file the records without a
    tombstone in their order, truncates it to their total size and sets
    [idx] to that size. *)
Theorem C4_vacuum s w ds :
  faults w = [] -> f_closed (file s) = false -> muFile s = false ->
  fs w !! f_path (file s) = Some (encode_log ds) -> Forall wf ds ->
  len (encode_log (live_part ds)) < 4294967296 ->
  exists s' w',
    vacuum s w = (Ok tt, s', w') /\
    data s' = data s /\ heap w' = heap w /\
    fs w' !! f_path (file s) = Some (encode_log (live_part ds)) /\
    filter (fun e => negb (is_write e)) (trace w')
      = filter (fun e => negb (is_write e)) (trace w)
        ++ [EvTruncate (f_path (file s)) (len (encode_log (live_part ds)))] /\
    idx s' = len (encode_log (live_part ds)).
Proof.
  intros Hf Hc Hmu Hfs Hwf Hsz.
  destruct (vacuum_quiet s w ds) as (s' & w' & HV & Hd & Hh & Hfs' & Hidx & _ & _ & _ & _ & _ & Htr);
    try done.
  exists s', w'. split_and!; try done.
  - rewrite Hfs'. by rewrite lookup_insert_eq.
  - rewrite Hidx. apply u32_small. pose proof (len_nonneg (encode_log (live_part ds))). lia.
Qed.

Lemma wf_log4 : Forall wf log4.
Proof. repeat constructor. Qed.

Lemma C4_vacuum_witness :
  exists s' w',
    vacuum store4 world4 = (Ok tt, s', w') /\
    data s' = data store4 /\ heap w' = heap world4 /\
    fs w' !! "db" = Some (encode_log [mkDatum (mkMeta 3 4 x00) "tom" (bytes "Ring") 19;
                                     mkDatum (mkMeta 6 3 x00) "elrond" (bytes "Let") 54]) /\
    idx s' = 34.
Proof.
  destruct (C4_vacuum store4 world4 log4) as (s' & w' & HV & Hd & Hh & Hfs & _ & Hidx).
  - reflexivity.
  - reflexivity.
  - reflexivity.
  - reflexivity.
  - exact wf_log4.
  - vm_compute. reflexivity.
  - exists s', w'. split_and!; try done.
Defined.

(** * Tombstone before append; a failed append *)

(** C7. [Set] on a key of the index writes the single byte 0x01 at the old
    record's offset + 8 and only then the new record at the end of the
    file: after the first write the file holds no live record of the key,
    after the second exactly the new one, and at neither point two live
    records of one key. *)
Theorem C7_tombstone_before_append filename mode cfg ops w0 ds0 k v s w p :
  faults w0 = [] -> content w0 filename = encode_log ds0 -> clean ds0 ->
  len (encode_log ds0) + ops_size (ops ++ [OpSet k v]) < 4294967296 ->
  vacuum_free cfg (2 * len (ops ++ [OpSet k v])) ->
  session filename mode cfg ops w0 = Some (s, w) ->
  data s !! k = Some p ->
  let ds := foldl log_after ds0 ops in
  let old := deref w p in
  let new := datum_Set newDatum k v in
  exists s' w',
    Storage_Set k v s w = (Ok tt, s', w') /\
    content w filename = encode_log ds /\
    (exists a b, ds = a ++ old :: b /\ d_idx old = len (encode_log a) /\
                 d_key old = k /\ deleted (d_meta old) <> x01) /\
    writes (trace w') =
      writes (trace w)
      ++ [EvWrite filename (d_idx old + 8) [x01];
          EvWrite filename (len (encode_log ds)) (encode new)] /\
    write_at (encode_log ds) (Z.to_nat (d_idx old + 8)) [x01]
      = encode_log (tombstone k ds) /\
    (k ∉ live_keys (tombstone k ds)) /\ NoDup (live_keys (tombstone k ds)) /\
    content w' filename
      = encode_log (tombstone k ds ++ [with_idx (len (encode_log ds)) new]) /\
    NoDup (live_keys (tombstone k ds ++ [with_idx (len (encode_log ds)) new])).
Proof.
  intros Hf Hc Hcl Hsz Hvf HS Hk ds old new.
  assert (Hops : ops_size (ops ++ [OpSet k v]) = ops_size ops + op_size (OpSet k v)).
  { clear. induction ops as [|o ops IH]; cbn [app ops_size]; lia. }
  assert (Hlen : len (ops ++ [OpSet k v]) = len ops + 1).
  { unfold len. rewrite length_app. simpl. lia. }
  pose proof (op_size_nonneg (OpSet k v)) as Hnn.
  destruct (session_inv filename mode cfg ops w0 ds0 2 Hf Hc Hcl)
    as (s0 & w1 & HS' & HI & Hq & Hp & _).
  { lia. } { lia. }
  { replace (2 * len ops + 2) with (2 * len (ops ++ [OpSet k v])) by lia. done. }
  rewrite HS in HS'. injection HS' as <- <-.
  pose proof HI as [Hio Hmu HI']. fold ds in HI, HI'. rewrite Hp in HI'.
  destruct (v_idx _ _ _ _ HI' k p Hk) as (d & Hhp & Hin & Hkey & Hlive).
  assert (Hold : old = d) by (unfold old; by apply deref_Some).
  rewrite Hold.
  destruct (offsets_ok_bounds _ _ _ (v_off _ _ _ _ HI') Hin) as [Hge _].
  assert (Hfit : fits k v).
  { unfold fits. cbn [op_size] in Hsz, Hops. pose proof (len_nonneg (encode_log ds0)).
    pose proof (ops_size_nonneg ops). lia. }
  destruct (Set_quiet_some k v s w p d) as (s' & w' & HSet & Htr); try done.
  destruct (Set_inv k v s w ds 0 HI Hfit) as (s'' & w'' & HSet' & HI2 & _).
  { pose proof (len_log_after ds0 (OpSet k v)). clear H.
    assert (len (encode_log ds) = len (encode_log ds0) + ops_size ops) as ->; [|lia].
    unfold ds. clear. revert ds0. induction ops as [|o ops IH]; intros ds0;
      cbn [foldl ops_size]; [lia|]. rewrite IH, len_log_after. lia. }
  { lia. } { by rewrite Z.add_0_l. }
  rewrite HSet in HSet'. injection HSet' as <- <-.
  destruct (Inv'_tomb _ _ _ _ _ _ _ HI' Hk Hhp) as (HT & _ & _).
  pose proof (Inv'_content _ _ _ _ HT) as HcT. rewrite content_do_write in HcT.
  assert (Hcw : content w filename = encode_log ds) by (by apply (Inv'_content _ _ _ _ HI')).
  unfold content at 1 in HcT. cbn [fs set_heap] in HcT. fold (content w filename) in HcT.
  rewrite Hcw in HcT.
  exists s', w'. split_and!; try done.
  - apply list_elem_of_split in Hin as (a & b & Hab). exists a, b.
    split_and!; try done. rewrite Hab in HI'.
    destruct (offsets_ok_split _ _ _ _ (v_off _ _ _ _ HI')) as (E & _). lia.
  - rewrite Htr, Hp, Hcw, HcT, len_tombstone. reflexivity.
  - eapply Inv'_not_live; [exact HT|]. by rewrite lookup_delete_eq.
  - by eapply Inv'_nodup.
  - destruct HI2 as [_ _ HI2']. cbn [log_after] in HI2'. fold new in HI2'.
    pose proof (Inv'_content _ _ _ _ HI2') as E.
    assert (Hp' : f_path (file s') = filename).
    { destruct (Set_inv k v s w ds 0 HI Hfit) as (s'' & w'' & HSet' & _ & _ & Hpp & _).
      - pose proof (v_size _ _ _ _ HI2'). rewrite len_encode_log_app, len_tombstone in H.
        cbn [encode_log] in H. rewrite app_nil_r in H.
        change (encode (with_idx _ new)) with (encode new) in H.
        unfold new in H. rewrite len_encode, d_key_Set, d_value_Set in H.
        cbn [op_size]. unfold metaSize. lia.
      - lia.
      - by rewrite Z.add_0_l.
      - rewrite HSet in HSet'. injection HSet' as <- <-. congruence. }
    by rewrite Hp' in E.
  - destruct HI2 as [_ _ HI2']. by eapply Inv'_nodup.
Qed.

Lemma C7_tombstone_before_append_witness :
  exists s w s' w',
    session "db" 420 None [OpSet "gandalf" (bytes "Fool of a Took!")] world0 = Some (s, w) /\
    Storage_Set "gandalf" (bytes "Fly, you fools!") s w = (Ok tt, s', w') /\
    writes (trace w') =
      writes (trace w)
      ++ [EvWrite "db" 8 [x01];
          EvWrite "db" 31 (encode (datum_Set newDatum "gandalf" (bytes "Fly, you fools!")))].
Proof.
  eexists _, _.
  edestruct (C7_tombstone_before_append "db" 420 None
               [OpSet "gandalf" (bytes "Fool of a Took!")] world0 []
               "gandalf" (bytes "Fly, you fools!"))
    as (s' & w' & HSet & _ & _ & Htr & _).
  - reflexivity.
  - reflexivity.
  - constructor; [constructor|exact I|constructor|constructor|reflexivity].
  - vm_compute. reflexivity.
  - right. vm_compute. reflexivity.
  - vm_compute. reflexivity.
  - vm_compute. reflexivity.
  - exists s', w'. split; [reflexivity|]. split; [exact HSet|]. exact Htr.
Defined.

(** C10. [Set] installs the new descriptor before it writes the record:
    when the tombstone of the old record (if any) was written and the
    append then fails, whatever the I/O faults, [Set] returns the error,
    [Get] already returns the new value, and the file holds the old record
    with its tombstone (followed by whatever part of the new record reached
    the file). *)
Theorem C10_failed_append filename mode cfg ops w0 ds0 s w fl key value e s' w' :
  faults w0 = [] -> content w0 filename = encode_log ds0 -> clean ds0 ->
  len (encode_log ds0) + ops_size ops < 4294967296 ->
  vacuum_free cfg (2 * len ops) ->
  session filename mode cfg ops w0 = Some (s, w) ->
  (forall p, data s !! key = Some p ->
             exists s1 w1, reclaimSpace p s (set_faults fl w) = (Ok tt, s1, w1)) ->
  Storage_Set key value s (set_faults fl w) = (Err e, s', w') ->
  Get key s' w' = (value, true) /\
  exists tail,
    content w' filename
      = encode_log (tombstone key (foldl log_after ds0 ops)) ++ tail.
Proof.
  intros Hf Hc Hcl Hsz Hvf HS Hrec HSet.
  destruct (session_inv filename mode cfg ops w0 ds0 0 Hf Hc Hcl Hsz)
    as (s0 & w1 & HS' & HI & _ & Hp & _); [lia|by rewrite Z.add_0_r|].
  rewrite HS in HS'. injection HS' as <- <-.
  destruct HI as [_ Hmu HI'].
  rewrite <- Hp.
  eapply (Set_failed_append key value s (set_faults fl w)); try done.
  by apply Inv'_faults.
Qed.

Lemma C10_failed_append_witness :
  exists s w e s' w',
    session "db" 420 None [OpSet "gandalf" (bytes "Fool of a Took!")] world0 = Some (s, w) /\
    Storage_Set "gandalf" (bytes "Fly, you fools!") s (set_faults faults10 w) = (Err e, s', w') /\
    Get "gandalf" s' w' = (bytes "Fly, you fools!", true).
Proof.
  eexists _, _, _, _, _.
  split; [vm_compute; reflexivity|]. split; [vm_compute; reflexivity|].
  eapply (C10_failed_append "db" 420 None [OpSet "gandalf" (bytes "Fool of a Took!")]
            world0 [] _ _ faults10 "gandalf" (bytes "Fly, you fools!")).
  - reflexivity.
  - reflexivity.
  - constructor; [constructor|exact I|constructor|constructor|reflexivity].
  - vm_compute. reflexivity.
  - right. vm_compute. reflexivity.
  - vm_compute. reflexivity.
  - intros p Hp. vm_compute in Hp. injection Hp as <-.
    eexists _, _. vm_compute. reflexivity.
  - vm_compute. reflexivity.
Defined.

(** * A partially written tail *)

(** C6, as amended. A file of well-formed records followed by a complete
    header without tombstone and fewer bytes than the header's
    [keySize + valSize] (a uint32 sum): [readDatum] fails with exactly the
    short-body message, and [NewStorage] fails with that message behind
    the prefix "reading datum: ", leaving every file as it was. *)
Theorem C6_short_body_refused filename mode cfg w ds m tail :
  faults w = [] ->
  fs w !! filename = Some (encode_log ds ++ meta_Bytes m ++ tail) ->
  Forall wf ds -> meta_ok m -> deleted m <> x01 ->
  len tail < u32 (keySize m + valSize m) ->
  let need := u32 (keySize m + valSize m) in
  let msg := "reading database file: reading key/val data: read "
             +:+ fmt_d (len tail) +:+ " bytes, need " +:+ fmt_d need in
  exists w',
    NewStorage filename mode cfg w = (Err (Errorf ("reading datum: " +:+ msg)), w') /\
    fs w' = fs w.
Proof.
  intros Hf Hfs Hwf Hm Hl Hshort need msg.
  destruct (NewStorage_short filename mode cfg w ds m tail) as (w' & HN & Hfs'); try done.
  exists w'. split; [|done]. exact HN.
Qed.

Lemma C6_short_body_refused_witness :
  exists w',
    NewStorage "db" 420 None world6 =
      (Err (Errorf "reading datum: reading database file: reading key/val data: read 15 bytes, need 27"), w') /\
    fs w' = fs world6.
Proof.
  apply (C6_short_body_refused "db" 420 None world6
           [datum_Set newDatum "frodo" (bytes "ring")] (mkMeta 9 18 x00)
           (bytes "galadriel" ++ bytes "I amar")).
  - reflexivity.
  - reflexivity.
  - repeat constructor.
  - vm_compute. repeat split; discriminate.
  - discriminate.
  - vm_compute. reflexivity.
Defined.

(** C6 as stated fails: a complete header that carries a tombstone and is
    followed by none of the bytes it announces is skipped, and [NewStorage]
    succeeds; and where it fails, its message is not the bare short-body
    message. *)
Lemma C6_counterexample :
  (NewStorage "db" 420 None world6t).1 =
    Ok (mkStorage "db" (mkFile "db" 36 false) 0 0 false ∅ 36 defaultConfig) /\
  (NewStorage "db" 420 None world6).1 <>
    Err (Errorf "reading database file: reading key/val data: read 15 bytes, need 27").
Proof.
  split.
  - vm_compute. reflexivity.
  - vm_compute. discriminate.
Qed.

(** * The record codec *)

Lemma wf_record key value del : fits key value -> wf (record key value del).
Proof. intros H. exact (wf_Set key value H). Qed.

(** C8, as amended. For every key and value whose record, header
    included, fits 32 bits, [datum.Bytes] gives the 9-byte header, the key
    and the value, and decoding these bytes ([meta.FromBytes] on the first
    nine, [datum.KeyValFromBytes] on the rest) gives the record back; the
    header of the test encodes to ED 5F 84 00 0A 00 00 00 01 and back, and
    a 3-byte slice is refused with [ErrInvalidMetaSlice]. *)
Theorem C8_codec_roundtrip key value del m0 k0 v0 i :
  fits key value ->
  let d := record key value del in
  datum_Bytes d
    = Ok (meta_Bytes (d_meta d) ++ list_byte_of_string key ++ value) /\
  length (meta_Bytes (d_meta d)) = 9%nat /\
  meta_FromBytes m0 (meta_Bytes (d_meta d)) = Ok (d_meta d) /\
  datum_KeyValFromBytes (mkDatum (d_meta d) k0 v0 i) (list_byte_of_string key ++ value)
    = Ok (mkDatum (d_meta d) key value i) /\
  meta_Bytes (mkMeta 8675309 10 x01) = [xed; x5f; x84; x00; x0a; x00; x00; x00; x01] /\
  meta_FromBytes m0 [xed; x5f; x84; x00; x0a; x00; x00; x00; x01]
    = Ok (mkMeta 8675309 10 x01) /\
  meta_FromBytes m0 [x62; x61; x64] = Err ErrInvalidMetaSlice.
Proof.
  intros Hfit d. pose proof (wf_record key value del Hfit) as Hwf. fold d in Hwf.
  assert (Hk : d_key d = key) by apply d_key_Set.
  assert (Hv : d_value d = value) by apply d_value_Set.
  split_and!.
  - rewrite (datum_Bytes_wf d Hwf). unfold encode. by rewrite Hk, Hv.
  - apply length_meta_Bytes.
  - apply meta_FromBytes_Bytes. by apply wf_meta_ok.
  - rewrite <- Hk at 1. rewrite <- Hv at 1.
    rewrite (datum_KeyValFromBytes_wf d i k0 v0 Hwf).
    unfold with_idx. by rewrite Hk, Hv.
  - reflexivity.
  - reflexivity.
  - reflexivity.
Qed.

Lemma C8_codec_roundtrip_witness :
  datum_Bytes (record "frodo" (bytes "ring") x00)
    = Ok ([x05; x00; x00; x00; x04; x00; x00; x00; x00] ++ bytes "frodo" ++ bytes "ring").
Proof.
  apply (C8_codec_roundtrip "frodo" (bytes "ring") x00 meta_zero "" [] 0).
  vm_compute. reflexivity.
Defined.

Lemma len_big_key : len (list_byte_of_string big_key) = 4294967287.
Proof.
  unfold big_key. rewrite list_byte_of_string_of_list_byte.
  unfold len. rewrite repeat_length. apply Z2Nat.id. lia.
Qed.

Lemma datum_Set_empty_value key :
  key <> "" ->
  datum_Set newDatum key []
  = mkDatum (mkMeta (u32 (len (list_byte_of_string key))) 0 x00) key [] 0.
Proof.
  intros Hne. unfold datum_Set.
  destruct (decide ([] = d_value newDatum)) as [_|Hn]; [|by exfalso; apply Hn].
  destruct (decide (key = d_key newDatum)) as [E|_]; [by exfalso; apply Hne|].
  reflexivity.
Qed.

Lemma datum_Bytes_panic d : 0 <= datum_Size d < 9 -> datum_Bytes d = Panic.
Proof.
  intros Hs. unfold datum_Bytes. unfold copy_slice at 1.
  destruct (decide _) as [(_ & _ & H)|_]; [|reflexivity].
  exfalso. unfold len in H. rewrite length_make in H. unfold metaSize in H. lia.
Qed.

Lemma big_key_nonempty : big_key <> "".
Proof.
  intros E. pose proof len_big_key as H. rewrite E in H. discriminate H.
Qed.

(** C8 as stated fails: a key of 4294967287 bytes and an empty value have
    lengths that fit 32 bits each, yet the size of their record wraps around
    to 0 and [datum.Bytes] panics on its first slice expression. *)
Lemma C8_counterexample :
  len (list_byte_of_string big_key) < 4294967296 /\
  len (@nil byte) < 4294967296 /\
  datum_Bytes (datum_Set newDatum big_key []) = Panic.
Proof.
  split; [rewrite len_big_key; reflexivity|]. split; [reflexivity|].
  rewrite (datum_Set_empty_value big_key big_key_nonempty).
  apply datum_Bytes_panic. unfold datum_Size.
  cbn [d_meta keySize valSize]. rewrite len_big_key.
  split; [discriminate|reflexivity].
Qed.

(** * The index and the offsets on disk *)

Lemma Inv_on_disk s w ds : Inv s w ds -> index_on_disk s w.
Proof.
  intros [_ _ HI] k p Hk.
  destruct (v_idx _ _ _ _ HI k p Hk) as (d & Hp & Hin & Hkey & Hl).
  pose proof (v_wf _ _ _ _ HI) as Hwf. pose proof (v_del _ _ _ _ HI) as Hdl.
  rewrite Forall_forall in Hwf, Hdl.
  destruct (Hwf d Hin) as (Hks & _). destruct (Hdl d Hin) as [H0|H1]; [|done].
  apply list_elem_of_split in Hin as (a & b & Hab).
  pose proof (v_off _ _ _ _ HI) as Hoff. rewrite Hab in Hoff.
  destruct (offsets_ok_split _ _ _ _ Hoff) as (Hix & _).
  exists (d_meta d), (d_value d ++ encode_log b).
  rewrite (deref_Some _ _ _ Hp), (Inv'_content _ _ _ _ HI), Hab, Hix.
  rewrite encode_log_app. cbn [encode_log].
  replace (Z.to_nat (0 + len (encode_log a))) with (length (encode_log a))
    by (unfold len; lia).
  rewrite drop_app_length. unfold encode. rewrite <- Hkey, <- !app_assoc. done.
Qed.

(** Invariant 1 holds after every sequence of Set and Delete operations. *)
Lemma session_on_disk filename mode cfg ops w0 ds0 s w :
  faults w0 = [] -> content w0 filename = encode_log ds0 -> clean ds0 ->
  len (encode_log ds0) + ops_size ops < 4294967296 ->
  vacuum_free cfg (2 * len ops) ->
  session filename mode cfg ops w0 = Some (s, w) ->
  index_on_disk s w.
Proof.
  intros Hf Hc Hcl Hsz Hvf HS.
  destruct (session_inv filename mode cfg ops w0 ds0 0 Hf Hc Hcl Hsz)
    as (s0 & w1 & HS' & HI & _); [lia|by rewrite Z.add_0_r|].
  rewrite HS in HS'. injection HS' as <- <-. by eapply Inv_on_disk.
Qed.

(** C2 fails on the code: [vacuum] moves the records and leaves the offsets
    of the index as they were. After Set a, Set b, Delete a the index is
    on disk; after [vacuum] the entry of b still says offset 11 while its
    record now starts at offset 0. The next Delete of b then writes its
    tombstone past the end of the file, and after Close and re-open the
    deleted key is back. *)
Theorem C2_vacuum_leaves_stale_offsets :
  exists s w s1 w1 s2 w2 s3 w3 s4 w4,
    session "db" 420 cfg_off ops2 world0 = Some (s, w) /\
    index_on_disk s w /\
    vacuum s w = (Ok tt, s1, w1) /\
    ~ index_on_disk s1 w1 /\
    Delete "b" s1 w1 = (Ok tt, s2, w2) /\
    Get "b" s2 w2 = ([], false) /\
    Close s2 w2 = (Ok tt, s3, w3) /\
    NewStorage "db" 420 cfg_off w3 = (Ok s4, w4) /\
    Get "b" s4 w4 = (bytes "y", true).
Proof.
  eexists _, _, _, _, _, _, _, _, _, _.
  split; [vm_compute; reflexivity|].
  split.
  { eapply (session_on_disk "db" 420 cfg_off ops2 world0 []).
    - reflexivity.
    - reflexivity.
    - constructor; [constructor|exact I|constructor|constructor|reflexivity].
    - vm_compute. reflexivity.
    - left. reflexivity.
    - vm_compute. reflexivity. }
  split; [vm_compute; reflexivity|].
  split.
  { intros H. destruct (H "b" 1%nat) as (m & rest & E & _).
    - vm_compute. reflexivity.
    - apply (f_equal length) in E. rewrite !length_app, length_meta_Bytes in E.
      vm_compute in E. lia. }
  split; [vm_compute; reflexivity|].
  split; [vm_compute; reflexivity|].
  split; [vm_compute; reflexivity|].
  split; [vm_compute; reflexivity|].
  vm_compute. reflexivity.
Qed.

(** * Snapshot and the write counters *)

Lemma meta_Bytes_deleted m : meta_Bytes m !! 8%nat = Some (deleted m).
Proof.
  unfold meta_Bytes. rewrite lookup_app_r by (rewrite length_PutUint32; lia).
  rewrite lookup_app_r by (rewrite !length_PutUint32; lia).
  rewrite !length_PutUint32. reflexivity.
Qed.

(** What [index_on_disk] says about the deleted byte of an indexed record. *)
Lemma on_disk_deleted s w k p :
  index_on_disk s w -> data s !! k = Some p ->
  content w (f_path (file s))
    !! (Z.to_nat (d_idx (deref w p)) + 8)%nat = Some x00.
Proof.
  intros H Hk. destruct (H k p Hk) as (m & rest & E & _ & Hd).
  rewrite <- lookup_drop, E, lookup_app_l
    by (rewrite length_meta_Bytes; lia).
  by rewrite meta_Bytes_deleted, Hd.
Qed.

(** C5 fails on the code: the snapshot itself is right, and the values and
    the file of the source are left alone, but [Snapshot] hands the datums
    of the source index to the [writeDatumToFile] of the snapshot store,
    which overwrites their offset with the offset in the snapshot file.
    After Set a x, Set a y the entry of a is at offset 11; after [Snapshot]
    it says offset 0, where the source file has the tombstoned first record.
    The next Delete of a then tombstones nothing new, and after Close and
    re-open the deleted key is back. *)
Theorem C5_snapshot_overwrites_source_offsets :
  exists s w s1 w1 sn wn s2 w2 s3 w3 s4 w4,
    session "db" 420 cfg_off ops5 world0 = Some (s, w) /\
    index_on_disk s w /\
    Snapshot "snap" 420 s w = (Ok tt, s1, w1) /\
    (NewStorage "snap" 420 cfg_off w1 = (Ok sn, wn) /\
     index_view sn wn = index_view s w) /\
    (index_view s1 w1 = index_view s w /\
     content w1 "db" = content w "db") /\
    (data s !! "a" = Some 1%nat /\ data s1 !! "a" = Some 1%nat /\
     d_idx (deref w 1%nat) = 11 /\ d_idx (deref w1 1%nat) = 0) /\
    ~ index_on_disk s1 w1 /\
    Delete "a" s1 w1 = (Ok tt, s2, w2) /\
    Get "a" s2 w2 = ([], false) /\
    Close s2 w2 = (Ok tt, s3, w3) /\
    NewStorage "db" 420 cfg_off w3 = (Ok s4, w4) /\
    Get "a" s4 w4 = (bytes "y", true).
Proof.
  eexists _, _, _, _, _, _, _, _, _, _, _, _.
  split; [vm_compute; reflexivity|].
  split.
  { eapply (session_on_disk "db" 420 cfg_off ops5 world0 []).
    - reflexivity.
    - reflexivity.
    - constructor; [constructor|exact I|constructor|constructor|reflexivity].
    - vm_compute. reflexivity.
    - left. reflexivity.
    - vm_compute. reflexivity. }
  split; [vm_compute; reflexivity|].
  split; [split; vm_compute; reflexivity|].
  split; [split; vm_compute; reflexivity|].
  split; [repeat split; vm_compute; reflexivity|].
  split.
  { intros H. apply (on_disk_deleted _ _ "a" 1%nat) in H.
    - vm_compute in H. discriminate H.
    - vm_compute. reflexivity. }
  split; [vm_compute; reflexivity|].
  split; [vm_compute; reflexivity|].
  split; [vm_compute; reflexivity|].
  split; [vm_compute; reflexivity|].
  vm_compute. reflexivity.
Qed.

(** [incAndSync] runs under the file mutex, which its callers
    [writeDatumToFile] and [writeDeletedByte] hold; when the vacuum counter
    reaches the batch size it calls [vacuum], which locks the same mutex
    again and blocks. *)
Lemma incAndSync_blocks s w :
  muFile s = true ->
  VacuumBatch (config s) > 0 ->
  u64 (writeCountVacuum s + 1) >= VacuumBatch (config s) ->
  incAndSync s w =
    (Blocked,
     set_writeCountVacuum (u64 (writeCountVacuum s + 1))
       (set_writeCountSync (u64 (writeCountSync s + 1)) s), w).
Proof.
  intros Hmu Hb Hge. unfold incAndSync.
  unfold bind at 1. unfold getS at 1.
  unfold bind at 1. unfold modS at 1.
  unfold bind at 1. unfold modS at 1.
  set (s2 := set_writeCountVacuum _ _).
  rewrite decide_True by (split; assumption).
  unfold bind at 1. unfold bind at 1. unfold wrap at 1.
  rewrite (vacuum_locked s2 w) by exact Hmu. reflexivity.
Qed.

(** C9 fails on the code where it says that the write that triggers the
    vacuum returns: with VacuumBatch 1 the first Set on an empty store
    appends its record, increments both counters to 1, enters [vacuum]
    with the file mutex held and blocks on it; the counter is not reset.
    With the vacuum off the same Set returns, and the sync trigger syncs
    and resets its counter. *)
Theorem C9_vacuum_trigger_blocks :
  exists s0 w0 s1 w1 t0 v0 t1 v1,
    NewStorage "db" 420 cfg9 world0 = (Ok s0, w0) /\
    Storage_Set "a" (bytes "x") s0 w0 = (Blocked, s1, w1) /\
    muFile s1 = true /\
    writeCountVacuum s1 = 1 /\ writeCountSync s1 = 1 /\
    content w1 "db" = encode (datum_Set newDatum "a" (bytes "x")) /\
    NewStorage "db" 420 (Some (mkConfig 0 1)) world0 = (Ok t0, v0) /\
    Storage_Set "a" (bytes "x") t0 v0 = (Ok tt, t1, v1) /\
    writeCountVacuum t1 = 1 /\ writeCountSync t1 = 0 /\
    trace v1 = [EvWrite "db" 0 (encode (datum_Set newDatum "a" (bytes "x")));
                EvSync "db"].
Proof.
  eexists _, _, _, _, _, _, _, _.
  repeat split; vm_compute; reflexivity.
Qed.
